(** * BMP image processing application: codec and transform catalogue

    A shallow embedding of [main.cpp]: the little-endian header codec
    ([get_int], [set_bytes]), the decoder [read_image], the encoder
    [write_image] and the pixel transforms [process_3] .. [process_10],
    followed by the properties established about them.

    Conventions of the embedding.
    - A C++ [int] is a [Z] kept in the signed 32-bit range; every
      arithmetic result goes through [wrap].  Division and remainder
      truncate toward zero ([Z.quot], [Z.rem]).
    - A [vector] is a [list]; [v[i]] outside the vector and the
      construction of a vector with a negative size have no result
      ([None]).
    - A byte of a file is a [Z] in [0, 256). *)

From Stdlib Require Import ZArith Lia.
From stdpp Require Import base tactics option list.

Local Open Scope Z_scope.

(** ** Machine integers *)

Definition INT_MAX : Z := 2147483647.

Definition wrap (x : Z) : Z := (x + 2147483648) mod 4294967296 - 2147483648.

Definition int_add (a b : Z) : Z := wrap (a + b).
Definition int_sub (a b : Z) : Z := wrap (a - b).
Definition int_mul (a b : Z) : Z := wrap (a * b).
Definition int_div (a b : Z) : Z := wrap (Z.quot a b).
Definition int_rem (a b : Z) : Z := Z.rem a b.

Infix "+i" := int_add (at level 50, left associativity).
Infix "-i" := int_sub (at level 50, left associativity).
Infix "*i" := int_mul (at level 40, left associativity).
Infix "/i" := int_div (at level 40, left associativity).
Infix "%i" := int_rem (at level 40, left associativity).

(** [int n = v.size()]: conversion of a size to [int]. *)
Definition size_int {A} (v : list A) : Z := wrap (Z.of_nat (length v)).

(** [(unsigned char) v]. *)
Definition to_uchar (v : Z) : Z := v mod 256.

(** [int x = n + 0.5] for an [int] n: the sum is exact in double
    precision and the conversion back truncates toward zero. *)
Definition plus_half_trunc (n : Z) : Z := Z.quot (2 * n + 1) 2.

(** ** Pixels and vectors *)

Record Pixel := mkPixel { red : Z; green : Z; blue : Z }.

Abbreviation Image := (list (list Pixel)).

Definition set_red (v : Z) (p : Pixel) : Pixel := mkPixel v (green p) (blue p).
Definition set_green (v : Z) (p : Pixel) : Pixel := mkPixel (red p) v (blue p).
Definition set_blue (v : Z) (p : Pixel) : Pixel := mkPixel (red p) (green p) v.

(** [vector<A> v(n, x)]: a negative [int] converts to a size above
    [max_size] and the constructor throws. *)
Definition vec_new {A} (n : Z) (x : A) : option (list A) :=
  if decide (0 <= n) then Some (replicate (Z.to_nat n) x) else None.

(** [v[i]] with an [int] index. *)
Definition vec_at {A} (v : list A) (i : Z) : option A :=
  if decide (0 <= i) then v !! Z.to_nat i else None.

(** [vector<vector<Pixel> > image(h, vector<Pixel>(w))]; the pixels are
    value-initialised. *)
Definition new_grid (h w : Z) : option Image :=
  row ← vec_new w (mkPixel 0 0 0);
  vec_new h row.

(** [image[i][j]] read. *)
Definition load (image : Image) (i j : Z) : option Pixel :=
  row ← vec_at image i;
  vec_at row j.

(** [image[i][j].field = v], with [f] the field update. *)
Definition store (image : Image) (i j : Z) (f : Pixel -> Pixel) : option Image :=
  row ← vec_at image i;
  p ← vec_at row j;
  Some (<[Z.to_nat i := <[Z.to_nat j := f p]> row]> image).

(** ** Counting loops *)

(** [n] iterations of [body], the counter starting at [i] and going up. *)
Fixpoint for_up {S} (n : nat) (i : Z) (body : Z -> S -> option S) (s : S) : option S :=
  match n with
  | O => Some s
  | S n' => s' ← body i s; for_up n' (i + 1) body s'
  end.

(** [for (int i = 0; i < bound; i++) body]. *)
Definition for_lt {S} (bound : Z) (body : Z -> S -> option S) (s : S) : option S :=
  for_up (Z.to_nat bound) 0 body s.

(** [n] iterations of [body], the counter going from [n - 1] down to [0]. *)
Fixpoint for_down {S} (n : nat) (body : Z -> S -> option S) (s : S) : option S :=
  match n with
  | O => Some s
  | S n' => s' ← body (Z.of_nat n') s; for_down n' body s'
  end.

(** [for (int i = start; i >= 0; i--) body]. *)
Definition for_from_down {S} (start : Z) (body : Z -> S -> option S) (s : S) : option S :=
  for_down (Z.to_nat (start + 1)) body s.

(** ** Input stream *)

Record fstream := mkStream { contents : list Z; gpos : Z; failbit : bool }.

Definition EOF : Z := -1.

Definition open (bytes : list Z) : fstream := mkStream bytes 0 false.

(** [stream.seekg(off)]: nothing happens on a failed stream; a negative
    position fails; a position past the end is accepted. *)
Definition seekg (off : Z) (s : fstream) : fstream :=
  if failbit s then s
  else if decide (0 <= off) then mkStream (contents s) off false
  else mkStream (contents s) (gpos s) true.

(** [stream.seekg(off, ios::cur)]. *)
Definition seekg_cur (off : Z) (s : fstream) : fstream :=
  if failbit s then s
  else if decide (0 <= gpos s + off) then mkStream (contents s) (gpos s + off) false
  else mkStream (contents s) (gpos s) true.

(** [stream.get()]: the next byte, or [EOF] with the fail bit set. *)
Definition get (s : fstream) : Z * fstream :=
  if failbit s then (EOF, s)
  else match vec_at (contents s) (gpos s) with
       | Some b => (b, mkStream (contents s) (gpos s + 1) false)
       | None => (EOF, mkStream (contents s) (gpos s) true)
       end.

(** ** Codec: decoding *)

Fixpoint get_int_loop (n : nat) (s : fstream) (result base : Z) : Z * fstream :=
  match n with
  | O => (result, s)
  | S n' =>
      let '(c, s') := get s in
      get_int_loop n' s' (result +i c *i base) (base *i 256)
  end.

Definition get_int (s : fstream) (offset bytes : Z) : Z * fstream :=
  get_int_loop (Z.to_nat bytes) (seekg offset s) 0 1.

(** The five header fields [read_image] reads, in the order it reads
    them. *)
Record Header := mkHeader {
  file_size : Z; start : Z; width : Z; height : Z; bits_per_pixel : Z }.

Definition read_header (s : fstream) : Header * fstream :=
  let '(file_size, s) := get_int s 2 4 in
  let '(start, s) := get_int s 10 4 in
  let '(width, s) := get_int s 18 4 in
  let '(height, s) := get_int s 22 4 in
  let '(bits_per_pixel, s) := get_int s 28 2 in
  (mkHeader file_size start width height bits_per_pixel, s).

Definition scanline_size (h : Header) : Z := width h *i (bits_per_pixel h /i 8).

(** [padding = 0; if (scanline_size % 4 != 0) padding = 4 - scanline_size % 4]. *)
Definition scanline_padding (scanline_size : Z) : Z :=
  if decide (scanline_size %i 4 <> 0) then 4 -i scanline_size %i 4 else 0.

(** The right-hand side of the validity test of [read_image]. *)
Definition expected_size (h : Header) : Z :=
  start h +i (scanline_size h +i scanline_padding (scanline_size h)) *i height h.

(** Body of the column loop of [read_image].  The loop state is the
    image, [pos] and the stream. *)
Definition read_pixel (bits_per_pixel i j : Z) (st : Image * Z * fstream)
  : option (Image * Z * fstream) :=
  let '(image, pos, s) := st in
  let s := seekg pos s in
  let '(b, s) := get s in
  image ← store image i j (set_blue b);
  let '(g, s) := get s in
  image ← store image i j (set_green g);
  let '(r, s) := get s in
  image ← store image i j (set_red r);
  Some (image, pos +i bits_per_pixel /i 8, s).

(** Body of the row loop of [read_image]: the columns, then the padding. *)
Definition read_row (h : Header) (padding i : Z) (st : Image * Z * fstream)
  : option (Image * Z * fstream) :=
  '(image, pos, s) ← for_lt (width h) (read_pixel (bits_per_pixel h) i) st;
  Some (image, pos +i padding, seekg_cur padding s).

Definition read_image_from (s : fstream) : option Image :=
  let '(h, s) := read_header s in
  let padding := scanline_padding (scanline_size h) in
  if decide (file_size h <> expected_size h) then Some []
  else
    image ← new_grid (height h) (width h);
    '(image, _, _) ← for_from_down (height h -i 1) (read_row h padding) (image, start h, s);
    Some image.

Definition read_image (bytes : list Z) : option Image := read_image_from (open bytes).

(** ** Codec: encoding *)

Fixpoint set_bytes_loop (n : nat) (i : Z) (arr : list Z) (offset value : Z) : option (list Z) :=
  match n with
  | O => Some arr
  | S n' =>
      _ ← vec_at arr (offset +i i);
      set_bytes_loop n' (i + 1)
        (<[Z.to_nat (offset +i i) := to_uchar (Z.shiftr value (i *i 8))]> arr) offset value
  end.

Definition set_bytes (arr : list Z) (offset bytes value : Z) : option (list Z) :=
  set_bytes_loop (Z.to_nat bytes) 0 arr offset value.

Definition BMP_HEADER_SIZE : Z := 14.
Definition DIB_HEADER_SIZE : Z := 40.

(** The 14 bytes of the BMP header and the 40 bytes of the DIB header,
    filled field by field. *)
Definition make_bmp_header (array_bytes : Z) : option (list Z) :=
  bmp_header ← vec_new BMP_HEADER_SIZE 0;
  bmp_header ← set_bytes bmp_header 0 1 66;
  bmp_header ← set_bytes bmp_header 1 1 77;
  bmp_header ← set_bytes bmp_header 2 4 (BMP_HEADER_SIZE +i DIB_HEADER_SIZE +i array_bytes);
  bmp_header ← set_bytes bmp_header 6 2 0;
  bmp_header ← set_bytes bmp_header 8 2 0;
  set_bytes bmp_header 10 4 (BMP_HEADER_SIZE +i DIB_HEADER_SIZE).

Definition make_dib_header (width_pixels height_pixels array_bytes : Z) : option (list Z) :=
  dib_header ← vec_new DIB_HEADER_SIZE 0;
  dib_header ← set_bytes dib_header 0 4 DIB_HEADER_SIZE;
  dib_header ← set_bytes dib_header 4 4 width_pixels;
  dib_header ← set_bytes dib_header 8 4 height_pixels;
  dib_header ← set_bytes dib_header 12 2 1;
  dib_header ← set_bytes dib_header 14 2 24;
  dib_header ← set_bytes dib_header 16 4 0;
  dib_header ← set_bytes dib_header 20 4 array_bytes;
  dib_header ← set_bytes dib_header 24 4 2835;
  dib_header ← set_bytes dib_header 28 4 2835;
  dib_header ← set_bytes dib_header 32 4 0;
  set_bytes dib_header 36 4 0.

(** [padding_bytes = (4 - width_bytes % 4) % 4]. *)
Definition padding_bytes (width_bytes : Z) : Z := (4 -i width_bytes %i 4) %i 4.

(** One pixel written as blue, green, red. *)
Definition write_pixel (image : Image) (h w : Z) (out : list Z) : option (list Z) :=
  b ← blue <$> load image h w;
  g ← green <$> load image h w;
  r ← red <$> load image h w;
  Some (out ++ [to_uchar b; to_uchar g; to_uchar r]).

(** Body of the row loop of [write_image]: the pixels, then the first
    [padding_bytes] bytes of the zero array [padding]. *)
Definition write_row (image : Image) (width_pixels padding_bytes h : Z) (out : list Z)
  : option (list Z) :=
  out ← for_lt width_pixels (write_pixel image h) out;
  Some (out ++ take (Z.to_nat padding_bytes) [0; 0; 0]).

(** The bytes [write_image] sends to the file once it is open; the
    failure to open the file is not part of the model. *)
Definition write_image (image : Image) : option (list Z) :=
  row0 ← vec_at image 0;
  let width_pixels := size_int row0 in
  let height_pixels := size_int image in
  let width_bytes := width_pixels *i 3 in
  let padding_bytes := padding_bytes width_bytes in
  let width_bytes := width_bytes +i padding_bytes in
  let array_bytes := width_bytes *i height_pixels in
  bmp_header ← make_bmp_header array_bytes;
  dib_header ← make_dib_header width_pixels height_pixels array_bytes;
  for_from_down (height_pixels -i 1) (write_row image width_pixels padding_bytes)
    (bmp_header ++ dib_header).

(** ** Transforms

    Every transform allocates [new_image] and fills it pixel by pixel.
    [process_1] computes with [sqrt] and [pow] in double precision and
    is not part of this development; [process_2], [process_8] and
    [process_9] come after the others, with their floating-point
    expressions as parameters. *)

(** The three assignments to [new_image[i][j]]. *)
Definition put_pixel (new_image : Image) (i j : Z) (new_red new_green new_blue : Z)
  : option Image :=
  new_image ← store new_image i j (set_red new_red);
  new_image ← store new_image i j (set_green new_green);
  store new_image i j (set_blue new_blue).

(** Grayscale. *)
Definition gray_value_3 (r g b : Z) : Z := plus_half_trunc ((r +i g +i b) /i 3).

Definition process_3 (image : Image) : option Image :=
  row0 ← vec_at image 0;
  let width_pixels := size_int row0 in
  let height_pixels := size_int image in
  new_image ← new_grid height_pixels width_pixels;
  for_lt height_pixels (λ row,
    for_lt width_pixels (λ col new_image,
      r ← red <$> load image row col;
      g ← green <$> load image row col;
      b ← blue <$> load image row col;
      let gray_value := gray_value_3 r g b in
      put_pixel new_image row col gray_value gray_value gray_value)) new_image.

(** Rotation by 90 degrees clockwise. *)
Definition process_4 (image : Image) : option Image :=
  row0 ← vec_at image 0;
  let width_pixels := size_int row0 in
  let height_pixels := size_int image in
  new_image ← new_grid width_pixels height_pixels;
  for_lt height_pixels (λ row,
    for_lt width_pixels (λ col new_image,
      r ← red <$> load image row col;
      g ← green <$> load image row col;
      b ← blue <$> load image row col;
      put_pixel new_image col ((height_pixels -i 1) -i row) r g b)) new_image.

(** Rotation by [number] quarter turns.  The diagnostic printed by the
    first branch is not modelled. *)
Definition process_5 (image : Image) (number : Z) : option Image :=
  let angle := number *i 90 in
  if decide (angle %i 90 <> 0) then Some image
  else if decide (angle %i 360 = 0) then Some image
  else if decide (angle %i 360 = 90) then process_4 image
  else if decide (angle %i 360 = 180) then
    once ← process_4 image; process_4 once
  else
    once ← process_4 image; twice ← process_4 once; process_4 twice.

(** Enlargement.  The index [(row/y_scale)+0.5] is a double converted
    back to an index. *)
Definition process_6 (image : Image) (x_scale y_scale : Z) : option Image :=
  row0 ← vec_at image 0;
  let width_pixels := size_int row0 in
  let height_pixels := size_int image in
  new_image ← new_grid (height_pixels *i y_scale) (width_pixels *i x_scale);
  for_lt (height_pixels *i y_scale) (λ row,
    for_lt (width_pixels *i x_scale) (λ col new_image,
      let src_row := plus_half_trunc (row /i y_scale) in
      let src_col := plus_half_trunc (col /i x_scale) in
      r ← red <$> load image src_row src_col;
      g ← green <$> load image src_row src_col;
      b ← blue <$> load image src_row src_col;
      put_pixel new_image row col r g b)) new_image.

(** High contrast. *)
Definition contrast_7 (r g b : Z) : Pixel :=
  let gray_value := (r +i g +i b) /i 3 in
  if decide (gray_value >= 255 /i 2) then mkPixel 255 255 255 else mkPixel 0 0 0.

Definition process_7 (image : Image) : option Image :=
  row0 ← vec_at image 0;
  let width_pixels := size_int row0 in
  let height_pixels := size_int image in
  new_image ← new_grid height_pixels width_pixels;
  for_lt height_pixels (λ row,
    for_lt width_pixels (λ col new_image,
      r ← red <$> load image row col;
      g ← green <$> load image row col;
      b ← blue <$> load image row col;
      let p := contrast_7 r g b in
      put_pixel new_image row col (red p) (green p) (blue p))) new_image.

(** Black, white, red, green, blue. *)
Definition posterize_10 (r g b : Z) : Pixel :=
  let max_color := Z.max (Z.max r g) b in
  if decide (r +i g +i b >= 550) then mkPixel 255 255 255
  else if decide (r +i g +i b <= 150) then mkPixel 0 0 0
  else if decide (max_color = r) then mkPixel 255 0 0
  else if decide (max_color = g) then mkPixel 0 255 0
  else mkPixel 0 0 255.

Definition process_10 (image : Image) : option Image :=
  row0 ← vec_at image 0;
  let width_pixels := size_int row0 in
  let height_pixels := size_int image in
  new_image ← new_grid height_pixels width_pixels;
  for_lt height_pixels (λ row,
    for_lt width_pixels (λ col new_image,
      r ← red <$> load image row col;
      g ← green <$> load image row col;
      b ← blue <$> load image row col;
      let p := posterize_10 r g b in
      put_pixel new_image row col (red p) (green p) (blue p))) new_image.

(** ** Transforms with a scaling factor

    [process_2], [process_8] and [process_9] multiply by a [double].  The
    two floating-point expressions they evaluate are parameters here:
    [scaled n] stands for the [int] that [n * scaling_factor] converts
    to, and [lightened n] for the [int] that
    [255 - n * scaling_factor] converts to, for an [int] [n] and the
    scaling factor of the call.  The mean [(red + green + blue)/3] of
    [process_2] is an integer quotient stored in a [double], so its
    comparisons with 170 and 90 are comparisons of integers. *)

Section scaling.
Variables scaled lightened : Z → Z.

(** Clarendon. *)
Definition clarendon_2 (r g b : Z) : Pixel :=
  let average_value := (r +i g +i b) /i 3 in
  if decide (average_value >= 170) then
    mkPixel (lightened (255 -i r)) (lightened (255 -i g)) (lightened (255 -i b))
  else if decide (average_value < 90) then
    mkPixel (scaled r) (scaled g) (scaled b)
  else mkPixel r g b.

Definition process_2 (image : Image) : option Image :=
  row0 ← vec_at image 0;
  let width_pixels := size_int row0 in
  let height_pixels := size_int image in
  new_image ← new_grid height_pixels width_pixels;
  for_lt height_pixels (λ row,
    for_lt width_pixels (λ col new_image,
      r ← red <$> load image row col;
      g ← green <$> load image row col;
      b ← blue <$> load image row col;
      let p := clarendon_2 r g b in
      put_pixel new_image row col (red p) (green p) (blue p))) new_image.

(** Lighten. *)
Definition process_8 (image : Image) : option Image :=
  row0 ← vec_at image 0;
  let width_pixels := size_int row0 in
  let height_pixels := size_int image in
  new_image ← new_grid height_pixels width_pixels;
  for_lt height_pixels (λ row,
    for_lt width_pixels (λ col new_image,
      r ← red <$> load image row col;
      g ← green <$> load image row col;
      b ← blue <$> load image row col;
      put_pixel new_image row col
        (lightened (255 -i r)) (lightened (255 -i g)) (lightened (255 -i b)))) new_image.

(** Darken. *)
Definition process_9 (image : Image) : option Image :=
  row0 ← vec_at image 0;
  let width_pixels := size_int row0 in
  let height_pixels := size_int image in
  new_image ← new_grid height_pixels width_pixels;
  for_lt height_pixels (λ row,
    for_lt width_pixels (λ col new_image,
      r ← red <$> load image row col;
      g ← green <$> load image row col;
      b ← blue <$> load image row col;
      put_pixel new_image row col (scaled r) (scaled g) (scaled b))) new_image.
End scaling.

(** ** Vocabulary of the statements *)

(** A grid of [H] rows that all have [W] pixels. *)
Definition grid (H W : nat) (image : Image) : Prop :=
  length image = H ∧ Forall (λ row, length row = W) image.

(** The dimensions are values of the program's [int]. *)
Definition int_sized (H W : nat) : Prop :=
  Z.of_nat H <= INT_MAX ∧ Z.of_nat W <= INT_MAX.

(** The pixel in row [r] and column [c]. *)
Definition pixel_at (image : Image) (r c : nat) : option Pixel :=
  row ← image !! r; row !! c.

(** The grid with the pixel at [(r, c)] replaced. *)
Definition grid_set (image : Image) (rc : nat * nat) (p : Pixel) : Image :=
  alter (λ row, <[rc.2 := p]> row) rc.1 image.

Definition in_byte_range (p : Pixel) : Prop :=
  0 <= red p <= 255 ∧ 0 <= green p <= 255 ∧ 0 <= blue p <= 255.

(** Invariant of the fill loops: the iterations before [(r, c)] have
    written their pixel. *)
Definition filled (Hn Wn Ho Wo : nat) (tr : nat → nat → nat * nat) (F : nat → nat → Pixel)
    (r c : nat) (image : Image) : Prop :=
  grid Ho Wo image ∧
  ∀ r' c', (r' < Hn)%nat → (c' < Wn)%nat → (r' < r ∨ r' = r ∧ c' < c)%nat →
    pixel_at image (tr r' c').1 (tr r' c').2 = Some (F r' c').

(** ** Closed forms of the encoded file *)

(** The three bytes of a pixel and the bytes of a padded row. *)
Definition pixel_bytes (p : Pixel) : list Z :=
  [to_uchar (blue p); to_uchar (green p); to_uchar (red p)].

Definition row_bytes (pad : nat) (row : list Pixel) : list Z :=
  (row ≫= pixel_bytes) ++ replicate pad 0.

(** Byte [k] of the little-endian layout of [v]. *)
Definition le_byte (v : Z) (k : Z) : Z := to_uchar (Z.shiftr v (8 * k)).

Definition bmp_header_bytes (array_bytes : Z) : list Z :=
  let size := BMP_HEADER_SIZE +i DIB_HEADER_SIZE +i array_bytes in
  [66; 77; le_byte size 0; le_byte size 1; le_byte size 2; le_byte size 3;
   0; 0; 0; 0; 54; 0; 0; 0].

Definition dib_header_bytes (w h array_bytes : Z) : list Z :=
  [40; 0; 0; 0;
   le_byte w 0; le_byte w 1; le_byte w 2; le_byte w 3;
   le_byte h 0; le_byte h 1; le_byte h 2; le_byte h 3;
   1; 0; 24; 0; 0; 0; 0; 0;
   le_byte array_bytes 0; le_byte array_bytes 1; le_byte array_bytes 2; le_byte array_bytes 3;
   19; 11; 0; 0; 19; 11; 0; 0; 0; 0; 0; 0; 0; 0; 0; 0].

(** [padding_bytes] and [array_bytes] of [write_image] for [H] rows of
    [W] pixels. *)
Definition file_padding (W : nat) : Z := padding_bytes (Z.of_nat W *i 3).

Definition array_size (H W : nat) : Z := (Z.of_nat W *i 3 +i file_padding W) *i Z.of_nat H.

(** The bytes of the file for a grid of [H] rows and [W] columns: the two
    headers, then the rows from the last to the first. *)
Definition encoded (H W : nat) (image : Image) : list Z :=
  bmp_header_bytes (array_size H W)
  ++ dib_header_bytes (Z.of_nat W) (Z.of_nat H) (array_size H W)
  ++ (reverse image ≫= row_bytes (Z.to_nat (file_padding W))).

(** The size of the file for [H] rows and [W] columns, without wrap-around. *)
Definition encoded_size (H W : nat) : Z :=
  54 + (Z.of_nat W * 3 + file_padding W) * Z.of_nat H.

(** ** Loop invariants of the decoder *)

(** Invariant of the column loop of [read_image] in row [i]. *)
Definition row_read (H W : nat) (g : Image) (data : list Z) (row_start : nat → nat)
    (i j : nat) (image : Image) (st : Image * Z * fstream) : Prop :=
  let '(image', pos, s) := st in
  pos = Z.of_nat (row_start i + j * 3)
  ∧ (∃ gp, s = mkStream data gp false ∧ 0 <= gp)
  ∧ grid H W image'
  ∧ (∀ c, (c < j)%nat → pixel_at image' i c = pixel_at g i c)
  ∧ (∀ r c, r ≠ i → pixel_at image' r c = pixel_at image r c).

(** Invariant of the row loop of [read_image]: the rows [k ..] are read. *)
Definition rows_read (H W : nat) (g : Image) (data : list Z) (rowlen : nat) (k : nat)
    (st : Image * Z * fstream) : Prop :=
  let '(image, pos, s) := st in
  pos = Z.of_nat (54 + (H - k) * rowlen)
  ∧ (∃ gp, s = mkStream data gp false ∧ 0 <= gp)
  ∧ grid H W image
  ∧ (∀ r c, (k <= r)%nat → (r < H)%nat → (c < W)%nat → pixel_at image r c = pixel_at g r c).

(** ** Vocabulary of the decoder on an arbitrary file *)

(** The pixel [stream.get()] yields at the end of the file. *)
Definition eof_pixel : Pixel := mkPixel EOF EOF EOF.

(** The three bytes at [q] are the blue, green and red channels of [P]. *)
Definition pixel_from (data : list Z) (q : nat) (P : Pixel) : Prop :=
  data !! q = Some (blue P) ∧ data !! (q + 1)%nat = Some (green P)
  ∧ data !! (q + 2)%nat = Some (red P).

(** What the decoder stores for the pixel whose bytes start at [q]: the
    three bytes when they are in the file, [eof_pixel] when [q] is at or
    past the end. *)
Definition decoded_at (data : list Z) (q : nat) (P : Pixel) : Prop :=
  ((q + 3 <= length data)%nat → pixel_from data q P)
  ∧ ((length data <= q)%nat → P = eof_pixel).

(** State of the stream while the pixel at [q] or a later one is read:
    the file is [data], and a failed stream has met the end of the file
    in a pixel before [q]. *)
Definition stream_at (data : list Z) (q : nat) (s : fstream) : Prop :=
  contents s = data ∧ 0 <= gpos s ∧ (failbit s = true → (length data < q + 3)%nat).

(** A header whose fields are not negative and whose byte counts stay
    within [int]. *)
Definition plain_header (hd : Header) : Prop :=
  0 <= start hd ∧ 0 <= width hd ∧ 0 <= height hd ∧ 0 <= bits_per_pixel hd <= INT_MAX
  ∧ width hd * (bits_per_pixel hd / 8) + 3 <= INT_MAX
  ∧ start hd + (width hd * (bits_per_pixel hd / 8) + 3) * height hd <= INT_MAX.

(** Bytes per pixel and per padded row, and the offset in the file of
    the pixel of row [r] and column [c]: the rows are stored last row
    first. *)
Definition pixel_stride (hd : Header) : Z := bits_per_pixel hd / 8.

Definition row_stride (hd : Header) : Z :=
  width hd * pixel_stride hd + padding_bytes (width hd * pixel_stride hd).

Definition pixel_offset (hd : Header) (r c : nat) : nat :=
  Z.to_nat (start hd + (height hd - 1 - Z.of_nat r) * row_stride hd
            + Z.of_nat c * pixel_stride hd).

(** Invariants of the column loop and of the row loop of [read_image] on
    the file [data], with [sn] the start offset, [kn] the bytes per pixel
    and [rn] the bytes per padded row. *)
Definition columns_decoded (data : list Z) (H W : nat) (q0 kn i j : nat) (image : Image)
    (st : Image * Z * fstream) : Prop :=
  let '(image', pos, s) := st in
  pos = Z.of_nat (q0 + j * kn)
  ∧ stream_at data (q0 + j * kn) s
  ∧ grid H W image'
  ∧ (∀ c, (c < j)%nat → ∃ P, pixel_at image' i c = Some P ∧ decoded_at data (q0 + c * kn) P)
  ∧ (∀ r c, r ≠ i → pixel_at image' r c = pixel_at image r c).

Definition rows_decoded (data : list Z) (H W : nat) (sn kn rn k : nat)
    (st : Image * Z * fstream) : Prop :=
  let '(image, pos, s) := st in
  pos = Z.of_nat (sn + (H - k) * rn)
  ∧ stream_at data (sn + (H - k) * rn) s
  ∧ grid H W image
  ∧ (∀ r c, (k <= r)%nat → (r < H)%nat → (c < W)%nat →
       ∃ P, pixel_at image r c = Some P
            ∧ decoded_at data (sn + (H - 1 - r) * rn + c * kn) P).

(** Every channel reduced to a byte, as the encoder does. *)
Definition wrap_channels (p : Pixel) : Pixel :=
  mkPixel (to_uchar (red p)) (to_uchar (green p)) (to_uchar (blue p)).

Definition wrap_grid (image : Image) : Image :=
  fmap (M:=list) (fmap (M:=list) wrap_channels) image.

(** ** Statements of the specification *)

Definition white : Pixel := mkPixel 255 255 255.
Definition black : Pixel := mkPixel 0 0 0.
Definition pure_red : Pixel := mkPixel 255 0 0.
Definition pure_green : Pixel := mkPixel 0 255 0.
Definition pure_blue : Pixel := mkPixel 0 0 255.

(** Every channel of every pixel is a byte. *)
Definition byte_grid (image : Image) : Prop := Forall (Forall in_byte_range) image.

(** [p] is the smallest non-negative padding that completes
    [bytes_per_row] to a multiple of four. *)
Definition least_padding (bytes_per_row p : Z) : Prop :=
  0 <= p ∧ (bytes_per_row + p) mod 4 = 0
  ∧ ∀ q, 0 <= q → (bytes_per_row + q) mod 4 = 0 → p <= q.

(** [n] is an integer nearest to the mean [(r + g + b) / 3] taken in the
    reals: the distance [|n - (r + g + b) / 3|] is at most one half. *)
Definition nearest_to_mean (r g b n : Z) : Prop :=
  2 * Z.abs (3 * n - (r + g + b)) <= 3.

(** HighContrast as the specification words it: white when the mean of
    the channels is at least 128, that is when their sum is at least
    384, black otherwise. *)
Definition spec_high_contrast (p : Pixel) : Pixel :=
  if decide (384 <= red p + green p + blue p) then white else black.

(** Posterize5 as the specification words it. *)
Definition spec_posterize5 (p : Pixel) : Pixel :=
  let sum := red p + green p + blue p in
  if decide (550 <= sum) then white
  else if decide (sum <= 150) then black
  else if decide (green p <= red p ∧ blue p <= red p) then pure_red
  else if decide (red p <= green p ∧ blue p <= green p) then pure_green
  else pure_blue.

(** Rotate90 applied [n] times. *)
Fixpoint rotate_times (n : nat) (image : Image) : option Image :=
  match n with
  | O => Some image
  | S n' => image' ← process_4 image; rotate_times n' image'
  end.

(** RotateN as the specification words it: Rotate90 applied [N mod 4]
    times, the remainder taken in [0, 4). *)
Definition spec_rotate_n (image : Image) (N : Z) : option Image :=
  rotate_times (Z.to_nat (N mod 4)) image.

(** A grid of two rows and three columns used in the examples. *)
Definition example_grid : Image :=
  [[mkPixel 1 2 3; mkPixel 4 5 6; mkPixel 7 8 9];
   [mkPixel 10 11 12; mkPixel 13 14 15; mkPixel 200 17 255]].

(** A file of one row of two pixels at 32 bits per pixel, and the same
    file cut after its first pixel. *)
Definition example_file_32 : list Z :=
  [66; 77; 62; 0; 0; 0; 0; 0; 0; 0; 54; 0; 0; 0;
   40; 0; 0; 0; 2; 0; 0; 0; 1; 0; 0; 0; 1; 0; 32; 0; 0; 0; 0; 0; 8; 0; 0; 0;
   19; 11; 0; 0; 19; 11; 0; 0; 0; 0; 0; 0; 0; 0; 0; 0;
   10; 20; 30; 255; 40; 50; 60; 255].

Definition example_file_cut : list Z := take 58 example_file_32.



(** * Properties *)

Ltac Zify.zify_post_hook ::= Z.to_euclidean_division_equations.

(** ** Machine integers *)

Lemma wrap_small x : -2147483648 <= x <= INT_MAX → wrap x = x.
Proof.
  unfold wrap, INT_MAX. intros Hx.
  rewrite Z.mod_small by lia. lia.
Qed.

Lemma wrap_range x : -2147483648 <= wrap x <= INT_MAX.
Proof.
  unfold wrap, INT_MAX.
  pose proof (Z.mod_pos_bound (x + 2147483648) 4294967296). lia.
Qed.

(** Removes the [wrap]s whose argument is in range, innermost first. *)
Ltac unwrap :=
  unfold int_add, int_sub, int_mul, int_div in *;
  repeat match goal with
    | |- context [wrap ?x] =>
        lazymatch x with
        | context [wrap _] => fail
        | _ => rewrite (wrap_small x) by (unfold INT_MAX in *; lia)
        end
    end.

Lemma size_int_small {A} (v : list A) :
  Z.of_nat (length v) <= INT_MAX → size_int v = Z.of_nat (length v).
Proof. intros Hv. unfold size_int. apply wrap_small. unfold INT_MAX in *. lia. Qed.

(** ** Vectors *)

Lemma vec_at_nat {A} (v : list A) (i : nat) : vec_at v (Z.of_nat i) = v !! i.
Proof.
  unfold vec_at. rewrite decide_True by lia. by rewrite Nat2Z.id.
Qed.

Lemma vec_new_nat {A} (n : nat) (x : A) : vec_new (Z.of_nat n) x = Some (replicate n x).
Proof.
  unfold vec_new. rewrite decide_True by lia. by rewrite Nat2Z.id.
Qed.

Lemma grid_row H W image r row : grid H W image → image !! r = Some row → length row = W.
Proof.
  intros [_ Hall] Hr. by eapply (proj1 (Forall_lookup _ _) Hall).
Qed.

Lemma grid_pixel H W image r c :
  grid H W image → (r < H)%nat → (c < W)%nat → is_Some (pixel_at image r c).
Proof.
  intros Hg Hr Hc. unfold pixel_at.
  destruct (lookup_lt_is_Some_2 image r) as [row Hrow]; [destruct Hg; lia|].
  rewrite Hrow. simpl. apply lookup_lt_is_Some_2.
  rewrite (grid_row _ _ _ _ _ Hg Hrow). lia.
Qed.

Lemma new_grid_nat (H W : nat) :
  new_grid (Z.of_nat H) (Z.of_nat W) = Some (replicate H (replicate W (mkPixel 0 0 0))).
Proof. unfold new_grid. rewrite vec_new_nat. simpl. by rewrite vec_new_nat. Qed.

Lemma grid_replicate H W p : grid H W (replicate H (replicate W p)).
Proof.
  split; [by rewrite length_replicate|].
  apply Forall_replicate. by rewrite length_replicate.
Qed.

Lemma load_nat image (r c : nat) : load image (Z.of_nat r) (Z.of_nat c) = pixel_at image r c.
Proof.
  unfold load, pixel_at. rewrite vec_at_nat.
  destruct (image !! r); simpl; [apply vec_at_nat|done].
Qed.

Lemma grid_set_grid H W image rc p : grid H W image → grid H W (grid_set image rc p).
Proof.
  intros [Hlen Hall]. unfold grid_set. split; [by rewrite length_alter|].
  apply Forall_alter; [done|]. intros row Hrow Hl. by rewrite length_insert.
Qed.

Lemma pixel_at_grid_set_eq H W image r c p :
  grid H W image → (r < H)%nat → (c < W)%nat →
  pixel_at (grid_set image (r, c) p) r c = Some p.
Proof.
  intros Hg Hr Hc. unfold pixel_at, grid_set. simpl.
  destruct (lookup_lt_is_Some_2 image r) as [row Hrow]; [destruct Hg; lia|].
  rewrite list_lookup_alter_eq, Hrow. simpl.
  apply list_lookup_insert_eq. rewrite (grid_row _ _ _ _ _ Hg Hrow). lia.
Qed.

Lemma pixel_at_grid_set_ne image r c r' c' p :
  (r, c) ≠ (r', c') →
  pixel_at (grid_set image (r, c) p) r' c' = pixel_at image r' c'.
Proof.
  intros Hne. unfold pixel_at, grid_set. simpl.
  destruct (decide (r = r')) as [->|Hr].
  - rewrite list_lookup_alter_eq. destruct (image !! r'); simpl; [|done].
    apply list_lookup_insert_ne. congruence.
  - by rewrite list_lookup_alter_ne.
Qed.

Lemma store_nat H W image (r c : nat) f p :
  grid H W image → pixel_at image r c = Some p →
  store image (Z.of_nat r) (Z.of_nat c) f = Some (grid_set image (r, c) (f p)).
Proof.
  intros Hg Hp. unfold store, pixel_at, grid_set in *. rewrite vec_at_nat.
  destruct (image !! r) as [row|] eqn:Hrow; simpl in *; [|done].
  rewrite vec_at_nat, Hp. simpl. rewrite !Nat2Z.id.
  f_equal. rewrite list_insert_alter. apply list_alter_ext; [|done].
  intros row' Hrow'. congruence.
Qed.

Lemma grid_set_twice image rc p q : grid_set (grid_set image rc p) rc q = grid_set image rc q.
Proof.
  unfold grid_set. rewrite list_alter_alter_eq.
  apply list_alter_ext; [|done]. intros row _. simpl.
  apply list_insert_insert_eq.
Qed.

Lemma put_pixel_nat H W image (r c : nat) vr vg vb :
  grid H W image → (r < H)%nat → (c < W)%nat →
  put_pixel image (Z.of_nat r) (Z.of_nat c) vr vg vb
  = Some (grid_set image (r, c) (mkPixel vr vg vb)).
Proof.
  intros Hg Hr Hc. unfold put_pixel.
  destruct (grid_pixel _ _ _ _ _ Hg Hr Hc) as [p Hp].
  rewrite (store_nat _ _ _ _ _ _ _ Hg Hp). simpl.
  pose proof (grid_set_grid _ _ _ (r, c) (set_red vr p) Hg) as Hg1.
  rewrite (store_nat _ _ _ _ _ _ _ Hg1 (pixel_at_grid_set_eq _ _ _ _ _ _ Hg Hr Hc)).
  simpl. rewrite grid_set_twice.
  pose proof (grid_set_grid _ _ _ (r, c) (set_green vg (set_red vr p)) Hg) as Hg2.
  rewrite (store_nat _ _ _ _ _ _ _ Hg2 (pixel_at_grid_set_eq _ _ _ _ _ _ Hg Hr Hc)).
  by rewrite grid_set_twice.
Qed.

(** ** Loops: invariant rules *)

Section loops.
Context {S : Type}.
Implicit Types (body : Z → S → option S) (s : S).

Lemma for_up_shift (I : nat → S → Prop) body n i s :
  I i s →
  (∀ k t, (i <= k < i + n)%nat → I k t →
          ∃ t', body (Z.of_nat k) t = Some t' ∧ I (Datatypes.S k) t') →
  ∃ s', for_up n (Z.of_nat i) body s = Some s' ∧ I (i + n)%nat s'.
Proof.
  revert i s. induction n as [|n IH]; intros i s Hi Hstep.
  - exists s. by rewrite Nat.add_0_r.
  - destruct (Hstep i s) as (t & Hb & Ht); [lia|done|].
    simpl. rewrite Hb. simpl.
    replace (Z.of_nat i + 1) with (Z.of_nat (Datatypes.S i)) by lia.
    destruct (IH (Datatypes.S i) t Ht) as (s' & Hf & Hs').
    { intros k u Hk. apply Hstep. lia. }
    exists s'. split; [done|]. by replace (i + Datatypes.S n)%nat with (Datatypes.S i + n)%nat by lia.
Qed.

(** Rule for [for (int i = 0; i < bound; i++)]. *)
Lemma for_lt_inv (I : nat → S → Prop) body (n : nat) s :
  I 0%nat s →
  (∀ k t, (k < n)%nat → I k t →
          ∃ t', body (Z.of_nat k) t = Some t' ∧ I (Datatypes.S k) t') →
  ∃ s', for_lt (Z.of_nat n) body s = Some s' ∧ I n s'.
Proof.
  intros H0 Hstep. unfold for_lt. rewrite Nat2Z.id.
  apply (for_up_shift I body n 0 s H0). intros k t Hk. apply Hstep. lia.
Qed.

(** Rule for [for (int i = n - 1; i >= 0; i--)]: [I k] holds when the
    rows [k ..] are done. *)
Lemma for_down_inv (I : nat → S → Prop) body (n : nat) s :
  I n s →
  (∀ k t, (k < n)%nat → I (Datatypes.S k) t →
          ∃ t', body (Z.of_nat k) t = Some t' ∧ I k t') →
  ∃ s', for_down n body s = Some s' ∧ I 0%nat s'.
Proof.
  revert s. induction n as [|n IH]; intros s Hn Hstep.
  - by exists s.
  - destruct (Hstep n s) as (t & Hb & Ht); [lia|done|].
    simpl. rewrite Hb. simpl. apply IH; [done|].
    intros k u Hk. apply Hstep. lia.
Qed.
End loops.

(** ** Filling a grid pixel by pixel *)

Section fill.
(** The loops run over [Hn] rows and [Wn] columns; iteration [(r, c)]
    writes [F r c] at position [tr r c] of a grid of [Ho] rows and
    [Wo] columns. *)
Variables (Hn Wn Ho Wo : nat) (tr : nat → nat → nat * nat) (F : nat → nat → Pixel).
Variable body : Z → Z → Image → option Image.

Hypothesis tr_range : ∀ r c, (r < Hn)%nat → (c < Wn)%nat →
  ((tr r c).1 < Ho ∧ (tr r c).2 < Wo)%nat.
Hypothesis tr_inj : ∀ r c r' c', (r < Hn)%nat → (c < Wn)%nat → (r' < Hn)%nat → (c' < Wn)%nat →
  tr r c = tr r' c' → r = r' ∧ c = c'.
Hypothesis body_spec : ∀ r c image, (r < Hn)%nat → (c < Wn)%nat → grid Ho Wo image →
  body (Z.of_nat r) (Z.of_nat c) image = Some (grid_set image (tr r c) (F r c)).

Lemma fill_row r image :
  (r < Hn)%nat → filled Hn Wn Ho Wo tr F r 0 image →
  ∃ image', for_lt (Z.of_nat Wn) (body (Z.of_nat r)) image = Some image' ∧ filled Hn Wn Ho Wo tr F (Datatypes.S r) 0 image'.
Proof.
  intros Hr H0.
  destruct (for_lt_inv (λ c, filled Hn Wn Ho Wo tr F r c) (body (Z.of_nat r)) Wn image H0) as (out & Hout & Hfin).
  - intros c t Hc [Hg Hdone]. rewrite body_spec by done.
    eexists. split; [done|]. split; [by apply grid_set_grid|].
    intros r' c' Hr' Hc' Hlt.
    destruct (decide (tr r c = tr r' c')) as [Heq|Hne].
    + destruct (tr_inj r c r' c') as [-> ->]; try done.
      destruct (tr_range r' c') as [? ?]; try done.
      destruct (tr r' c') as [a b]. by eapply pixel_at_grid_set_eq.
    + destruct (tr r c) as [a b] eqn:Eab. destruct (tr r' c') as [a' b'] eqn:Eab'. simpl.
      rewrite pixel_at_grid_set_ne by done.
      specialize (Hdone r' c' Hr' Hc'). rewrite Eab' in Hdone. apply Hdone.
      destruct Hlt as [?|[-> Hlt]]; [lia|].
      assert (c' ≠ c) by (intros ->; congruence). lia.
  - exists out. split; [done|]. destruct Hfin as [Hg Hdone]. split; [done|].
    intros r' c' Hr' Hc' Hlt. apply Hdone; try done. lia.
Qed.

Lemma fill_grid image :
  grid Ho Wo image →
  ∃ out, for_lt (Z.of_nat Hn) (λ row, for_lt (Z.of_nat Wn) (body row)) image = Some out
         ∧ grid Ho Wo out
         ∧ ∀ r c, (r < Hn)%nat → (c < Wn)%nat →
             pixel_at out (tr r c).1 (tr r c).2 = Some (F r c).
Proof.
  intros Hg.
  destruct (for_lt_inv (λ r, filled Hn Wn Ho Wo tr F r 0) (λ row, for_lt (Z.of_nat Wn) (body row)) Hn image)
    as (out & Hout & [Hgo Hfin]).
  - split; [done|]. intros; lia.
  - intros r t Hr Ht. by apply fill_row.
  - exists out. split; [done|]. split; [done|].
    intros r c Hr Hc. apply Hfin; try done. lia.
Qed.
End fill.

(** ** Transforms: common prologue *)

Lemma grid_sizes H W image :
  grid H W image → (0 < H)%nat → int_sized H W →
  ∃ row0, vec_at image 0 = Some row0
          ∧ size_int row0 = Z.of_nat W ∧ size_int image = Z.of_nat H.
Proof.
  intros Hg Hpos [HH HW].
  destruct (lookup_lt_is_Some_2 image 0) as [row0 Hrow0]; [destruct Hg; lia|].
  exists row0. split; [|split].
  - change 0 with (Z.of_nat 0). by rewrite vec_at_nat.
  - rewrite size_int_small; rewrite (grid_row _ _ _ _ _ Hg Hrow0); done.
  - destruct Hg as [Hl _]. rewrite size_int_small; rewrite Hl; done.
Qed.

(** The fill of a transform that maps every pixel through [f]. *)
Lemma pointwise_fill H W image (f : Pixel → Pixel) body :
  grid H W image →
  (∀ (r c : nat) p new_image, pixel_at image r c = Some p →
     body (Z.of_nat r) (Z.of_nat c) new_image
     = put_pixel new_image (Z.of_nat r) (Z.of_nat c) (red (f p)) (green (f p)) (blue (f p))) →
  ∃ out, for_lt (Z.of_nat H) (λ row, for_lt (Z.of_nat W) (body row))
           (replicate H (replicate W (mkPixel 0 0 0))) = Some out
         ∧ grid H W out
         ∧ ∀ r c p, pixel_at image r c = Some p → pixel_at out r c = Some (f p).
Proof.
  intros Hg Hbody.
  destruct (fill_grid H W H W (λ r c, (r, c))
              (λ r c, default (mkPixel 0 0 0) (f <$> pixel_at image r c)) body)
    with (image := replicate H (replicate W (mkPixel 0 0 0)))
    as (out & Hout & Hgo & Hpx).
  - intros r c Hr Hc. simpl. lia.
  - intros r c r' c' _ _ _ _ Heq. by inversion Heq.
  - intros r c new_image Hr Hc Hn.
    destruct (grid_pixel _ _ _ _ _ Hg Hr Hc) as [p Hp].
    rewrite (Hbody r c p new_image Hp), Hp. simpl.
    rewrite (put_pixel_nat _ _ _ _ _ _ _ _ Hn Hr Hc). by destruct (f p).
  - apply grid_replicate.
  - exists out. split; [done|]. split; [done|].
    intros r c p Hp.
    assert (r < H ∧ c < W)%nat as [Hr Hc].
    { unfold pixel_at in Hp. destruct (image !! r) as [row|] eqn:Hrow; simpl in Hp; [|done].
      pose proof (lookup_lt_Some _ _ _ Hrow). pose proof (lookup_lt_Some _ _ _ Hp).
      rewrite (grid_row _ _ _ _ _ Hg Hrow) in *. destruct Hg. lia. }
    specialize (Hpx r c Hr Hc). simpl in Hpx. by rewrite Hp in Hpx.
Qed.

Lemma process_3_pointwise H W image :
  grid H W image → (0 < H)%nat → int_sized H W →
  ∃ out, process_3 image = Some out ∧ grid H W out
         ∧ ∀ r c p, pixel_at image r c = Some p →
             let v := gray_value_3 (red p) (green p) (blue p) in
             pixel_at out r c = Some (mkPixel v v v).
Proof.
  intros Hg Hpos Hsz.
  destruct (grid_sizes _ _ _ Hg Hpos Hsz) as (row0 & Hrow0 & HW & HH).
  unfold process_3. rewrite Hrow0. simpl. rewrite HW, HH, new_grid_nat. simpl.
  apply (pointwise_fill H W image
           (λ p, let v := gray_value_3 (red p) (green p) (blue p) in mkPixel v v v)); [done|].
  intros r c p new_image Hp. rewrite load_nat, Hp. done.
Qed.

Lemma process_7_pointwise H W image :
  grid H W image → (0 < H)%nat → int_sized H W →
  ∃ out, process_7 image = Some out ∧ grid H W out
         ∧ ∀ r c p, pixel_at image r c = Some p →
             pixel_at out r c = Some (contrast_7 (red p) (green p) (blue p)).
Proof.
  intros Hg Hpos Hsz.
  destruct (grid_sizes _ _ _ Hg Hpos Hsz) as (row0 & Hrow0 & HW & HH).
  unfold process_7. rewrite Hrow0. simpl. rewrite HW, HH, new_grid_nat. simpl.
  apply (pointwise_fill H W image (λ p, contrast_7 (red p) (green p) (blue p))); [done|].
  intros r c p new_image Hp. rewrite load_nat, Hp. done.
Qed.

Lemma process_10_pointwise H W image :
  grid H W image → (0 < H)%nat → int_sized H W →
  ∃ out, process_10 image = Some out ∧ grid H W out
         ∧ ∀ r c p, pixel_at image r c = Some p →
             pixel_at out r c = Some (posterize_10 (red p) (green p) (blue p)).
Proof.
  intros Hg Hpos Hsz.
  destruct (grid_sizes _ _ _ Hg Hpos Hsz) as (row0 & Hrow0 & HW & HH).
  unfold process_10. rewrite Hrow0. simpl. rewrite HW, HH, new_grid_nat. simpl.
  apply (pointwise_fill H W image (λ p, posterize_10 (red p) (green p) (blue p))); [done|].
  intros r c p new_image Hp. rewrite load_nat, Hp. done.
Qed.

(** ** Rotation *)

Lemma int_sub_nat (a b : nat) :
  Z.of_nat a <= INT_MAX → (b <= a)%nat → Z.of_nat a -i Z.of_nat b = Z.of_nat (a - b).
Proof.
  intros Ha Hb. unfold int_sub. rewrite wrap_small by (unfold INT_MAX in *; lia). lia.
Qed.

Lemma process_4_grid H W image :
  grid H W image → (0 < H)%nat → int_sized H W →
  ∃ out, process_4 image = Some out ∧ grid W H out
         ∧ ∀ r c, (r < H)%nat → (c < W)%nat →
             pixel_at out c (H - 1 - r) = pixel_at image r c.
Proof.
  intros Hg Hpos Hsz.
  destruct (grid_sizes _ _ _ Hg Hpos Hsz) as (row0 & Hrow0 & HW & HH).
  unfold process_4. rewrite Hrow0. simpl. rewrite HW, HH, new_grid_nat. simpl.
  destruct (fill_grid H W W H (λ r c, (c, H - 1 - r)%nat)
              (λ r c, default (mkPixel 0 0 0) (pixel_at image r c))
              (λ row col new_image,
                 r ← red <$> load image row col;
                 g ← green <$> load image row col;
                 b ← blue <$> load image row col;
                 put_pixel new_image col ((Z.of_nat H -i 1) -i row) r g b))
    with (image := replicate W (replicate H (mkPixel 0 0 0)))
    as (out & Hout & Hgo & Hpx).
  - intros r c Hr Hc. simpl. lia.
  - intros r c r' c' Hr _ Hr' _ Heq. inversion Heq. lia.
  - intros r c new_image Hr Hc Hn.
    destruct (grid_pixel _ _ _ _ _ Hg Hr Hc) as [p Hp].
    rewrite load_nat, Hp. simpl.
    change 1 with (Z.of_nat 1). destruct Hsz as [HHm HWm].
    rewrite int_sub_nat by (done || lia).
    rewrite int_sub_nat by (unfold INT_MAX in *; lia).
    rewrite (put_pixel_nat W H) by (done || lia). by destruct p.
  - apply grid_replicate.
  - exists out. split; [done|]. split; [done|].
    intros r c Hr Hc. specialize (Hpx r c Hr Hc). simpl in Hpx.
    destruct (grid_pixel _ _ _ _ _ Hg Hr Hc) as [p Hp]. by rewrite Hp in *.
Qed.

(** ** Enlargement *)

Lemma plus_half_trunc_nonneg n : 0 <= n → plus_half_trunc n = n.
Proof.
  intros Hn. unfold plus_half_trunc.
  rewrite Z.quot_div_nonneg by lia.
  replace (2 * n + 1) with (1 + n * 2) by lia.
  rewrite Z.div_add by lia. done.
Qed.

Lemma scaled_index (i s : nat) :
  (0 < s)%nat → Z.of_nat i <= INT_MAX →
  plus_half_trunc (Z.of_nat i /i Z.of_nat s) = Z.of_nat (i / s).
Proof.
  intros Hs Hi. unfold int_div.
  rewrite Z.quot_div_nonneg by lia. rewrite <- Nat2Z.inj_div.
  assert (i / s <= i)%nat by (apply Nat.Div0.div_le_upper_bound; nia).
  rewrite wrap_small by (unfold INT_MAX in *; lia).
  apply plus_half_trunc_nonneg. lia.
Qed.

Lemma process_6_grid H W image (xs ys : nat) :
  grid H W image → (0 < H)%nat → (0 < xs)%nat → (0 < ys)%nat →
  int_sized (H * ys) (W * xs) →
  ∃ out, process_6 image (Z.of_nat xs) (Z.of_nat ys) = Some out
         ∧ grid (H * ys) (W * xs) out
         ∧ ∀ r c, (r < H * ys)%nat → (c < W * xs)%nat →
             pixel_at out r c = pixel_at image (r / ys) (c / xs).
Proof.
  intros Hg Hpos Hxs Hys [HHm HWm].
  assert (int_sized H W) as Hsz by (unfold int_sized, INT_MAX in *; nia).
  destruct (grid_sizes _ _ _ Hg Hpos Hsz) as (row0 & Hrow0 & HW & HH).
  unfold process_6. rewrite Hrow0. simpl. rewrite HW, HH.
  assert (Z.of_nat H *i Z.of_nat ys = Z.of_nat (H * ys)) as ->.
  { unfold int_mul. rewrite wrap_small by (unfold INT_MAX in *; lia). lia. }
  assert (Z.of_nat W *i Z.of_nat xs = Z.of_nat (W * xs)) as ->.
  { unfold int_mul. rewrite wrap_small by (unfold INT_MAX in *; lia). lia. }
  rewrite new_grid_nat. simpl.
  destruct (fill_grid (H * ys) (W * xs) (H * ys) (W * xs) (λ r c, (r, c))
              (λ r c, default (mkPixel 0 0 0) (pixel_at image (r / ys) (c / xs)))
              (λ row col new_image,
                 let src_row := plus_half_trunc (row /i Z.of_nat ys) in
                 let src_col := plus_half_trunc (col /i Z.of_nat xs) in
                 r ← red <$> load image src_row src_col;
                 g ← green <$> load image src_row src_col;
                 b ← blue <$> load image src_row src_col;
                 put_pixel new_image row col r g b))
    with (image := replicate (H * ys) (replicate (W * xs) (mkPixel 0 0 0)))
    as (out & Hout & Hgo & Hpx).
  - intros r c Hr Hc. simpl. lia.
  - intros r c r' c' _ _ _ _ Heq. by inversion Heq.
  - intros r c new_image Hr Hc Hn. cbv zeta.
    rewrite !scaled_index by (done || lia).
    assert (r / ys < H)%nat as Hr' by (apply Nat.Div0.div_lt_upper_bound; lia).
    assert (c / xs < W)%nat as Hc' by (apply Nat.Div0.div_lt_upper_bound; lia).
    destruct (grid_pixel _ _ _ _ _ Hg Hr' Hc') as [p Hp].
    rewrite load_nat, Hp. simpl.
    rewrite (put_pixel_nat _ _ _ _ _ _ _ _ Hn Hr Hc). by destruct p.
  - apply grid_replicate.
  - exists out. split; [done|]. split; [done|].
    intros r c Hr Hc. specialize (Hpx r c Hr Hc). simpl in Hpx.
    assert (r / ys < H)%nat as Hr' by (apply Nat.Div0.div_lt_upper_bound; lia).
    assert (c / xs < W)%nat as Hc' by (apply Nat.Div0.div_lt_upper_bound; lia).
    destruct (grid_pixel _ _ _ _ _ Hg Hr' Hc') as [p Hp]. by rewrite Hp in *.
Qed.

(** Two grids of the same dimensions with the same pixels are equal. *)
Lemma grid_ext H W (a b : Image) :
  grid H W a → grid H W b →
  (∀ r c, (r < H)%nat → (c < W)%nat → pixel_at a r c = pixel_at b r c) → a = b.
Proof.
  intros Ha Hb Hpx. apply list_eq. intros r.
  destruct (decide (r < H)%nat) as [Hr|Hr].
  - destruct (lookup_lt_is_Some_2 a r) as [ra Hra]; [destruct Ha; lia|].
    destruct (lookup_lt_is_Some_2 b r) as [rb Hrb]; [destruct Hb; lia|].
    rewrite Hra, Hrb. f_equal. apply list_eq. intros c.
    pose proof (grid_row _ _ _ _ _ Ha Hra) as Hla.
    pose proof (grid_row _ _ _ _ _ Hb Hrb) as Hlb.
    destruct (decide (c < W)%nat) as [Hc|Hc].
    + specialize (Hpx r c Hr Hc). unfold pixel_at in Hpx. by rewrite Hra, Hrb in Hpx.
    + rewrite !lookup_ge_None_2 by lia. done.
  - destruct Ha, Hb. rewrite !lookup_ge_None_2 by lia. done.
Qed.

(** ** Encoding: the bytes written *)

Lemma make_bmp_header_eq array_bytes :
  make_bmp_header array_bytes = Some (bmp_header_bytes array_bytes).
Proof.
  unfold make_bmp_header, bmp_header_bytes, le_byte.
  generalize (BMP_HEADER_SIZE +i DIB_HEADER_SIZE +i array_bytes). intros size.
  cbv -[to_uchar Z.shiftr]. reflexivity.
Qed.

Lemma make_dib_header_eq w h array_bytes :
  make_dib_header w h array_bytes = Some (dib_header_bytes w h array_bytes).
Proof.
  unfold make_dib_header, dib_header_bytes, le_byte.
  cbv -[to_uchar Z.shiftr]. reflexivity.
Qed.

Lemma padding_bytes_range x : 0 <= padding_bytes x <= 3.
Proof.
  unfold padding_bytes, int_rem, int_sub.
  rewrite wrap_small by (unfold INT_MAX; lia). lia.
Qed.

Lemma take_zeros (n : nat) : (n <= 3)%nat → take n [0; 0; 0] = replicate n 0.
Proof. intros Hn. by destruct n as [|[|[|[|n]]]]; [..|lia]. Qed.

Lemma write_pixel_nat image (h w : nat) p out :
  pixel_at image h w = Some p →
  write_pixel image (Z.of_nat h) (Z.of_nat w) out = Some (out ++ pixel_bytes p).
Proof. intros Hp. unfold write_pixel. by rewrite load_nat, Hp. Qed.

Lemma write_row_eq image (W : nat) padding (h : nat) row out :
  image !! h = Some row → length row = W → 0 <= padding <= 3 →
  write_row image (Z.of_nat W) padding (Z.of_nat h) out
  = Some (out ++ row_bytes (Z.to_nat padding) row).
Proof.
  intros Hrow Hlen Hpad. unfold write_row.
  destruct (for_lt_inv (λ k o, o = out ++ (take k row ≫= pixel_bytes))
              (write_pixel image (Z.of_nat h)) W out) as (o & Ho & ->).
  - simpl. by rewrite app_nil_r.
  - intros k t Hk ->.
    destruct (lookup_lt_is_Some_2 row k) as [p Hp]; [lia|].
    rewrite (write_pixel_nat _ _ _ p); [|unfold pixel_at; by rewrite Hrow].
    eexists. split; [done|].
    rewrite (take_S_r _ _ _ Hp), bind_app, app_assoc. done.
  - rewrite Ho. simpl. rewrite take_zeros by lia.
    rewrite <- Hlen, firstn_all. unfold row_bytes. by rewrite app_assoc.
Qed.

Lemma write_rows_eq H W image padding out :
  grid H W image → 0 <= padding <= 3 →
  for_down H (write_row image (Z.of_nat W) padding) out
  = Some (out ++ (reverse image ≫= row_bytes (Z.to_nat padding))).
Proof.
  intros Hg Hpad.
  destruct (for_down_inv
              (λ k o, o = out ++ (reverse (drop k image) ≫= row_bytes (Z.to_nat padding)))
              (write_row image (Z.of_nat W) padding) H out) as (o & Ho & ->).
  - destruct Hg as [<- _]. rewrite drop_all. simpl. by rewrite app_nil_r.
  - intros k t Hk ->.
    destruct (lookup_lt_is_Some_2 image k) as [row Hrow]; [destruct Hg; lia|].
    rewrite (write_row_eq _ _ _ _ _ _ Hrow (grid_row _ _ _ _ _ Hg Hrow) Hpad).
    eexists. split; [done|].
    rewrite (drop_S _ _ _ Hrow), reverse_cons, bind_app, app_assoc. simpl.
    by rewrite app_nil_r.
  - by rewrite Ho, drop_0.
Qed.

Lemma write_image_eq H W image :
  grid H W image → (0 < H)%nat → int_sized H W →
  write_image image = Some (encoded H W image).
Proof.
  intros Hg Hpos Hsz.
  destruct (grid_sizes _ _ _ Hg Hpos Hsz) as (row0 & Hrow0 & HW & HH).
  unfold write_image. rewrite Hrow0. cbn [mbind option_bind]. rewrite HW, HH.
  fold (file_padding W). fold (array_size H W).
  rewrite make_bmp_header_eq. cbn [mbind option_bind].
  rewrite make_dib_header_eq. cbn [mbind option_bind].
  unfold for_from_down. change 1 with (Z.of_nat 1) at 1.
  rewrite int_sub_nat by (destruct Hsz; done || lia).
  replace (Z.to_nat (Z.of_nat (H - 1) + 1)) with H by lia.
  rewrite (write_rows_eq H W) by (done || apply padding_bytes_range).
  unfold encoded. by rewrite <- app_assoc.
Qed.

(** ** Layout of the encoded file *)

Lemma length_bind_chunks {A B} (f : A → list B) (n : nat) (l : list A) :
  Forall (λ y, length (f y) = n) l → length (l ≫= f) = (length l * n)%nat.
Proof.
  induction 1 as [|a l Ha Hl IH]; [done|].
  rewrite bind_cons, length_app, IH, Ha. simpl. lia.
Qed.

Lemma lookup_bind_chunks {A B} (f : A → list B) (n : nat) (l : list A) (k t : nat) x :
  Forall (λ y, length (f y) = n) l → l !! k = Some x → (t < n)%nat →
  (l ≫= f) !! (k * n + t)%nat = f x !! t.
Proof.
  intros Hn. revert k. induction Hn as [|a l Ha Hl IH]; intros k Hk Ht; [done|].
  rewrite bind_cons. destruct k as [|k]; simpl in Hk.
  - inversion Hk; subst. rewrite lookup_app_l; [done|]. lia.
  - rewrite lookup_app_r by lia. rewrite Ha.
    replace (Datatypes.S k * n + t - n)%nat with (k * n + t)%nat by lia.
    by apply IH.
Qed.

Lemma length_row_bytes pad row : length (row_bytes pad row) = (length row * 3 + pad)%nat.
Proof.
  unfold row_bytes. rewrite length_app, length_replicate.
  rewrite (length_bind_chunks pixel_bytes 3); [done|].
  by apply Forall_forall.
Qed.

Lemma row_bytes_lookup pad row (c t : nat) p :
  row !! c = Some p → (t < 3)%nat →
  row_bytes pad row !! (c * 3 + t)%nat = pixel_bytes p !! t.
Proof.
  intros Hc Ht. unfold row_bytes.
  pose proof (lookup_lt_Some _ _ _ Hc).
  assert (Forall (λ y, length (pixel_bytes y) = 3%nat) row) as Hall by by apply Forall_forall.
  rewrite lookup_app_l by (rewrite (length_bind_chunks pixel_bytes 3); [lia|done]).
  by apply (lookup_bind_chunks pixel_bytes 3).
Qed.

Lemma encoded_header_lookup H W image (i : nat) :
  (i < 54)%nat →
  encoded H W image !! i
  = (bmp_header_bytes (array_size H W)
     ++ dib_header_bytes (Z.of_nat W) (Z.of_nat H) (array_size H W)) !! i.
Proof.
  intros Hi. unfold encoded. rewrite app_assoc. by rewrite lookup_app_l.
Qed.

Lemma encoded_pixel_lookup H W image (r c t : nat) p :
  grid H W image → pixel_at image r c = Some p → (t < 3)%nat →
  encoded H W image
    !! (54 + (H - 1 - r) * (W * 3 + Z.to_nat (file_padding W)) + (c * 3 + t))%nat
  = pixel_bytes p !! t.
Proof.
  intros Hg Hp Ht. unfold pixel_at in Hp.
  destruct (image !! r) as [row|] eqn:Hrow; simpl in Hp; [|done].
  pose proof (lookup_lt_Some _ _ _ Hrow) as Hr.
  pose proof (grid_row _ _ _ _ _ Hg Hrow) as Hlen.
  destruct Hg as [HH Hall].
  unfold encoded. rewrite app_assoc.
  set (header := bmp_header_bytes _ ++ dib_header_bytes _ _ _).
  assert (length header = 54%nat) as Hh by reflexivity.
  rewrite lookup_app_r by nia. rewrite Hh.
  match goal with |- _ !! ?i = _ =>
    replace i with ((H - 1 - r) * (W * 3 + Z.to_nat (file_padding W)) + (c * 3 + t))%nat
      by nia end.
  rewrite (lookup_bind_chunks (row_bytes (Z.to_nat (file_padding W)))
             (W * 3 + Z.to_nat (file_padding W)) _ _ _ row).
  - by apply row_bytes_lookup.
  - apply Forall_reverse. eapply Forall_impl; [exact Hall|].
    intros y Hy. simpl. rewrite length_row_bytes. by rewrite Hy.
  - rewrite reverse_lookup by lia. rewrite <- Hrow. f_equal. lia.
  - pose proof (lookup_lt_Some _ _ _ Hp). lia.
Qed.

(** ** Decoding: the stream *)

Lemma seekg_ok data gp (q : nat) :
  seekg (Z.of_nat q) (mkStream data gp false) = mkStream data (Z.of_nat q) false.
Proof. unfold seekg. simpl. by rewrite decide_True by lia. Qed.

Lemma get_ok data (q : nat) b :
  data !! q = Some b →
  get (mkStream data (Z.of_nat q) false) = (b, mkStream data (Z.of_nat (Datatypes.S q)) false).
Proof.
  intros Hb. unfold get. simpl. rewrite vec_at_nat, Hb.
  by replace (Z.of_nat q + 1) with (Z.of_nat (Datatypes.S q)) by lia.
Qed.

Lemma le_bytes_value v :
  0 <= v <= INT_MAX →
  0 +i le_byte v 0 *i 1 +i le_byte v 1 *i (1 *i 256) +i le_byte v 2 *i (1 *i 256 *i 256)
    +i le_byte v 3 *i (1 *i 256 *i 256 *i 256) = v.
Proof.
  intros Hv. unfold le_byte, to_uchar. rewrite !Z.shiftr_div_pow2 by lia.
  change (2 ^ (8 * 0)) with 1. change (2 ^ (8 * 1)) with 256.
  change (2 ^ (8 * 2)) with 65536. change (2 ^ (8 * 3)) with 16777216.
  change (1 *i 256 *i 256 *i 256) with 16777216.
  change (1 *i 256 *i 256) with 65536. change (1 *i 256) with 256.
  replace (v / 65536) with (v / 256 / 256) by (rewrite Z.div_div by lia; done).
  replace (v / 16777216) with (v / 256 / 256 / 256) by (rewrite !Z.div_div by lia; done).
  rewrite Z.div_1_r. unwrap. unfold INT_MAX in *. lia.
Qed.

Lemma get_int_4 data gp (o : nat) v :
  0 <= v <= INT_MAX →
  data !! o = Some (le_byte v 0) → data !! (o + 1)%nat = Some (le_byte v 1) →
  data !! (o + 2)%nat = Some (le_byte v 2) → data !! (o + 3)%nat = Some (le_byte v 3) →
  get_int (mkStream data gp false) (Z.of_nat o) 4
  = (v, mkStream data (Z.of_nat (o + 4)) false).
Proof.
  intros Hv H0 H1 H2 H3. unfold get_int. rewrite seekg_ok.
  change (Z.to_nat 4) with 4%nat. cbn [get_int_loop].
  rewrite (get_ok _ _ _ H0).
  replace (Datatypes.S o) with (o + 1)%nat by lia. rewrite (get_ok _ _ _ H1).
  replace (Datatypes.S (o + 1)) with (o + 2)%nat by lia. rewrite (get_ok _ _ _ H2).
  replace (Datatypes.S (o + 2)) with (o + 3)%nat by lia. rewrite (get_ok _ _ _ H3).
  replace (Datatypes.S (o + 3)) with (o + 4)%nat by lia.
  by rewrite le_bytes_value.
Qed.

Lemma get_int_2 data gp (o : nat) b0 b1 :
  data !! o = Some b0 → data !! (o + 1)%nat = Some b1 →
  get_int (mkStream data gp false) (Z.of_nat o) 2
  = (0 +i b0 *i 1 +i b1 *i (1 *i 256), mkStream data (Z.of_nat (o + 2)) false).
Proof.
  intros H0 H1. unfold get_int. rewrite seekg_ok.
  change (Z.to_nat 2) with 2%nat. cbn [get_int_loop].
  rewrite (get_ok _ _ _ H0).
  replace (Datatypes.S o) with (o + 1)%nat by lia. rewrite (get_ok _ _ _ H1).
  by replace (Datatypes.S (o + 1)) with (o + 2)%nat by lia.
Qed.

(** ** Decoding an encoded file *)

Lemma array_size_exact H W :
  (0 < H)%nat → int_sized H W → encoded_size H W <= INT_MAX →
  array_size H W = (Z.of_nat W * 3 + file_padding W) * Z.of_nat H
  ∧ Z.of_nat W *i 3 = Z.of_nat W * 3.
Proof.
  intros Hpos [HH HW] Hsize. unfold encoded_size, array_size in *.
  pose proof (padding_bytes_range (Z.of_nat W *i 3)) as Hpad. fold (file_padding W) in Hpad.
  assert (Z.of_nat W * 3 <= INT_MAX) as HW3 by nia.
  assert (Z.of_nat W *i 3 = Z.of_nat W * 3) as HW3' by (unwrap; done).
  split; [|done]. rewrite HW3'.
  assert (0 <= (Z.of_nat W * 3 + file_padding W) * Z.of_nat H <= INT_MAX) by nia.
  assert (0 <= Z.of_nat W * 3 + file_padding W <= INT_MAX) by nia.
  unwrap. done.
Qed.

Lemma read_header_encoded H W image :
  (0 < H)%nat → int_sized H W → encoded_size H W <= INT_MAX →
  read_header (open (encoded H W image))
  = (mkHeader (encoded_size H W) 54 (Z.of_nat W) (Z.of_nat H) 24,
     mkStream (encoded H W image) 30 false).
Proof.
  intros Hpos Hsz Hsize.
  destruct (array_size_exact H W Hpos Hsz Hsize) as [Harr HW3].
  pose proof (padding_bytes_range (Z.of_nat W *i 3)) as Hpad. fold (file_padding W) in Hpad.
  assert (BMP_HEADER_SIZE +i DIB_HEADER_SIZE +i array_size H W = encoded_size H W) as Hfs.
  { rewrite Harr. unfold encoded_size, BMP_HEADER_SIZE, DIB_HEADER_SIZE in *.
    assert (0 <= (Z.of_nat W * 3 + file_padding W) * Z.of_nat H) by nia.
    unwrap. lia. }
  assert (0 <= encoded_size H W) as Hnn by (unfold encoded_size; nia).
  destruct Hsz as [HH HW].
  unfold read_header, open.
  rewrite (get_int_4 _ _ 2 (encoded_size H W));
    [|done|rewrite encoded_header_lookup by lia; simpl; by rewrite Hfs..].
  rewrite (get_int_4 _ _ 10 54);
    [|done|rewrite encoded_header_lookup by lia; reflexivity..].
  rewrite (get_int_4 _ _ 18 (Z.of_nat W));
    [|lia|rewrite encoded_header_lookup by lia; reflexivity..].
  rewrite (get_int_4 _ _ 22 (Z.of_nat H));
    [|lia|rewrite encoded_header_lookup by lia; reflexivity..].
  rewrite (get_int_2 _ _ 28 24 0);
    [|rewrite encoded_header_lookup by lia; reflexivity..].
  reflexivity.
Qed.

Lemma to_uchar_byte v : 0 <= v <= 255 → to_uchar v = v.
Proof. intros Hv. unfold to_uchar. apply Z.mod_small. lia. Qed.

Lemma pixel_at_inv H W image r c p :
  grid H W image → pixel_at image r c = Some p → (r < H ∧ c < W)%nat.
Proof.
  intros Hg Hp. unfold pixel_at in Hp.
  destruct (image !! r) as [row|] eqn:Hrow; simpl in Hp; [|done].
  pose proof (lookup_lt_Some _ _ _ Hrow). pose proof (lookup_lt_Some _ _ _ Hp).
  rewrite (grid_row _ _ _ _ _ Hg Hrow) in *. destruct Hg. lia.
Qed.

Lemma read_pixel_ok data H W image (i j q : nat) gp p :
  grid H W image → (i < H)%nat → (j < W)%nat →
  data !! q = Some (blue p) → data !! (q + 1)%nat = Some (green p) →
  data !! (q + 2)%nat = Some (red p) →
  Z.of_nat q + 3 <= INT_MAX →
  read_pixel 24 (Z.of_nat i) (Z.of_nat j) (image, Z.of_nat q, mkStream data gp false)
  = Some (grid_set image (i, j) p, Z.of_nat (q + 3),
          mkStream data (Z.of_nat (q + 3)) false).
Proof.
  intros Hg Hi Hj Hb Hgr Hr Hq. unfold read_pixel.
  rewrite seekg_ok, (get_ok _ _ _ Hb).
  destruct (grid_pixel _ _ _ _ _ Hg Hi Hj) as [p0 Hp0].
  rewrite (store_nat _ _ _ _ _ _ _ Hg Hp0). cbn [mbind option_bind].
  replace (Datatypes.S q) with (q + 1)%nat by lia. rewrite (get_ok _ _ _ Hgr).
  pose proof (grid_set_grid _ _ _ (i, j) (set_blue (blue p) p0) Hg) as Hg1.
  rewrite (store_nat _ _ _ _ _ _ _ Hg1 (pixel_at_grid_set_eq _ _ _ _ _ _ Hg Hi Hj)).
  cbn [mbind option_bind]. rewrite grid_set_twice.
  replace (Datatypes.S (q + 1)) with (q + 2)%nat by lia. rewrite (get_ok _ _ _ Hr).
  pose proof (grid_set_grid _ _ _ (i, j) (set_green (green p) (set_blue (blue p) p0)) Hg) as Hg2.
  rewrite (store_nat _ _ _ _ _ _ _ Hg2 (pixel_at_grid_set_eq _ _ _ _ _ _ Hg Hi Hj)).
  cbn [mbind option_bind]. rewrite grid_set_twice.
  replace (Datatypes.S (q + 2)) with (q + 3)%nat by lia.
  change (24 /i 8) with 3.
  assert (Z.of_nat q +i 3 = Z.of_nat (q + 3)) as -> by (unwrap; lia).
  by destruct p.
Qed.

Section read_rows.
(** The file [data] holds at [row_start r] the bytes of row [r] of [g]. *)
Variables (H W : nat) (g : Image) (data : list Z) (padding : Z).
Variable row_start : nat → nat.
Hypothesis Hg : grid H W g.
Hypothesis Hpad : 0 <= padding.
Hypothesis Hdata : ∀ r c p (t : nat), pixel_at g r c = Some p → (t < 3)%nat →
  data !! (row_start r + (c * 3 + t))%nat = [blue p; green p; red p] !! t.
Hypothesis Hfit : ∀ r, (r < H)%nat →
  Z.of_nat (row_start r) + Z.of_nat W * 3 + padding <= INT_MAX.

Lemma read_row_ok hd (i : nat) image gp :
  width hd = Z.of_nat W → bits_per_pixel hd = 24 →
  grid H W image → (i < H)%nat → 0 <= gp →
  ∃ image' gp',
    read_row hd padding (Z.of_nat i) (image, Z.of_nat (row_start i), mkStream data gp false)
    = Some (image', Z.of_nat (row_start i) + Z.of_nat W * 3 + padding,
            mkStream data gp' false)
    ∧ 0 <= gp' ∧ grid H W image'
    ∧ (∀ c, (c < W)%nat → pixel_at image' i c = pixel_at g i c)
    ∧ (∀ r c, r ≠ i → pixel_at image' r c = pixel_at image r c).
Proof.
  intros Hw Hbpp Hgi Hi Hgp. unfold read_row. rewrite Hw, Hbpp.
  destruct (for_lt_inv (λ j, row_read H W g data row_start i j image) (read_pixel 24 (Z.of_nat i)) W
              (image, Z.of_nat (row_start i), mkStream data gp false))
    as ([[image' pos'] s'] & Hloop & Hpos & (gp' & -> & Hgp') & Hg' & Hrow & Hrest).
  - simpl. split; [f_equal; lia|]. split; [by exists gp|]. split; [done|].
    split; [intros; lia|done].
  - intros j [[img pos] s] Hj (-> & (gq & -> & Hgq) & Himg & Hrow & Hrest).
    destruct (grid_pixel _ _ _ _ _ Hg Hi Hj) as [p Hp].
    pose proof (Hfit i Hi).
    rewrite (read_pixel_ok data H W img i j _ gq p); try done.
    + eexists. split; [done|]. simpl.
      split; [f_equal; lia|]. split; [eexists; split; [done|lia]|].
      split; [by apply grid_set_grid|]. split.
      * intros c Hc. destruct (decide (c = j)) as [->|Hne].
        -- rewrite Hp. by eapply pixel_at_grid_set_eq.
        -- rewrite pixel_at_grid_set_ne by congruence. apply Hrow. lia.
      * intros r c Hr. rewrite pixel_at_grid_set_ne by congruence. by apply Hrest.
    + specialize (Hdata i j p 0%nat Hp). simpl in Hdata. rewrite <- Hdata by lia. f_equal. lia.
    + specialize (Hdata i j p 1%nat Hp). simpl in Hdata. rewrite <- Hdata by lia. f_equal. lia.
    + specialize (Hdata i j p 2%nat Hp). simpl in Hdata. rewrite <- Hdata by lia. f_equal. lia.
    + lia.
  - rewrite Hloop. cbn [mbind option_bind]. pose proof (Hfit i Hi).
    exists image', (gp' + padding). split; [|split; [lia|done]].
    unfold seekg_cur. simpl. rewrite decide_True by lia.
    do 3 f_equal. unwrap. lia.
Qed.
End read_rows.

Lemma scanline_padding_eq x : 0 <= x → scanline_padding x = padding_bytes x.
Proof.
  intros Hx. unfold scanline_padding, padding_bytes, int_rem.
  case_decide as Hrem.
  - unwrap. lia.
  - rewrite Hrem. reflexivity.
Qed.

Lemma read_rows_ok H W g hd image :
  let data := encoded H W g in
  let padding := file_padding W in
  grid H W g → (0 < H)%nat → int_sized H W → encoded_size H W <= INT_MAX →
  (∀ r c p, pixel_at g r c = Some p → in_byte_range p) →
  width hd = Z.of_nat W → bits_per_pixel hd = 24 →
  grid H W image →
  ∃ pos s, for_down H (read_row hd padding) (image, 54, mkStream data 30 false)
           = Some (g, pos, s).
Proof.
  intros data padding Hg Hpos Hsz Hsize Hbytes Hw Hbpp Himg.
  pose proof (padding_bytes_range (Z.of_nat W *i 3)) as Hpad. fold (file_padding W) in Hpad.
  set (rowlen := (W * 3 + Z.to_nat padding)%nat).
  set (row_start := λ r : nat, (54 + (H - 1 - r) * rowlen)%nat).
  assert (∀ r, (r < H)%nat →
            Z.of_nat (row_start r) + Z.of_nat W * 3 + padding <= INT_MAX) as Hfit.
  { intros r Hr. unfold row_start, rowlen, encoded_size, padding in *.
    assert (Z.of_nat (H - 1 - r) + 1 <= Z.of_nat H) by lia. nia. }
  assert (∀ r c p (t : nat), pixel_at g r c = Some p → (t < 3)%nat →
            data !! (row_start r + (c * 3 + t))%nat = [blue p; green p; red p] !! t) as Hdata.
  { intros r c p t Hp Ht. unfold data, row_start, rowlen, padding.
    rewrite (encoded_pixel_lookup _ _ _ _ _ _ _ Hg Hp Ht).
    destruct (Hbytes _ _ _ Hp) as (? & ? & ?).
    unfold pixel_bytes. by rewrite !to_uchar_byte. }
  destruct (for_down_inv (rows_read H W g data rowlen) (read_row hd padding) H
              (image, 54, mkStream data 30 false))
    as ([[image' pos'] s'] & Hloop & Hpos' & _ & Hg' & Hrows).
  - simpl. split; [f_equal; lia|]. split; [exists 30; split; [done|lia]|].
    split; [done|]. intros; lia.
  - intros k [[img pos] s] Hk (-> & (gp & -> & Hgp) & Hgi & Hrows).
    replace (54 + (H - Datatypes.S k) * rowlen)%nat with (row_start k)
      by (unfold row_start; f_equal; f_equal; lia).
    destruct (read_row_ok H W g data padding row_start Hg (proj1 Hpad) Hdata Hfit
                hd k img gp Hw Hbpp Hgi Hk Hgp)
      as (img' & gp' & Hrow & Hgp' & Hgi' & Hnew & Hold).
    rewrite Hrow. eexists. split; [done|]. simpl.
    split; [unfold row_start, rowlen; nia|]. split; [by exists gp'|]. split; [done|].
    intros r c Hr HrH Hc. destruct (decide (r = k)) as [->|Hne].
    + by apply Hnew.
    + rewrite Hold by done. apply Hrows; lia || done.
  - exists pos', s'. rewrite Hloop. do 3 f_equal.
    apply (grid_ext H W); [done..|]. intros r c Hr Hc. apply Hrows; lia || done.
Qed.

Lemma read_image_encoded H W g :
  grid H W g → (0 < H)%nat → int_sized H W → encoded_size H W <= INT_MAX →
  (∀ r c p, pixel_at g r c = Some p → in_byte_range p) →
  read_image (encoded H W g) = Some g.
Proof.
  intros Hg Hpos Hsz Hsize Hbytes.
  destruct (array_size_exact H W Hpos Hsz Hsize) as [Harr HW3].
  pose proof (padding_bytes_range (Z.of_nat W *i 3)) as Hpad. fold (file_padding W) in Hpad.
  unfold read_image, read_image_from.
  rewrite (read_header_encoded H W g Hpos Hsz Hsize). cbv beta iota zeta.
  set (hd := mkHeader _ _ _ _ _).
  assert (scanline_size hd = Z.of_nat W *i 3) as Hscan by reflexivity.
  assert (scanline_padding (scanline_size hd) = file_padding W) as Hsp.
  { rewrite Hscan. apply scanline_padding_eq. rewrite HW3. lia. }
  assert (expected_size hd = encoded_size H W) as Hexp.
  { unfold expected_size. rewrite Hsp, Hscan, HW3. simpl.
    unfold encoded_size in *.
    assert (0 <= (Z.of_nat W * 3 + file_padding W) * Z.of_nat H <= INT_MAX) by nia.
    assert (0 <= Z.of_nat W * 3 + file_padding W <= INT_MAX) by nia.
    unwrap. done. }
  rewrite Hexp, Hsp. rewrite decide_False by (simpl; intros Hne; by apply Hne).
  simpl height. simpl width. simpl start.
  rewrite new_grid_nat. cbn [mbind option_bind].
  unfold for_from_down. change 1 with (Z.of_nat 1) at 1.
  rewrite int_sub_nat by (destruct Hsz; done || lia).
  replace (Z.to_nat (Z.of_nat (H - 1) + 1)) with H by lia.
  destruct (read_rows_ok H W g hd (replicate H (replicate W (mkPixel 0 0 0))))
    as (pos & s & Hloop); try done; [apply grid_replicate|].
  by rewrite Hloop.
Qed.

(** * The codec *)



Lemma scanline_padding_least s : 0 <= s → least_padding s (scanline_padding s).
Proof.
  intros Hs. rewrite scanline_padding_eq by done.
  pose proof (padding_bytes_range s) as Hr.
  unfold padding_bytes, int_rem in *. revert Hr. unwrap. intros Hr.
  rewrite !Z.rem_mod_nonneg by lia.
  split; [lia|]. split; [lia|]. intros q Hq Hmod. lia.
Qed.

(** C3 as stated fails: for a width of 3 at 24 bits per pixel the
    decoder and the encoder both pad with 3 bytes, not 1, and 1 does not
    complete 9 bytes to a multiple of 4. *)
Lemma padding_width_3_is_not_1 :
  scanline_padding (scanline_size (mkHeader 66 54 3 1 24)) ≠ 1
  ∧ padding_bytes (3 *i 3) ≠ 1
  ∧ ¬ least_padding 9 1.
Proof.
  split_and!; [vm_compute; discriminate..|].
  intros (_ & Hmod & _). vm_compute in Hmod. discriminate.
Qed.

(** C3, amended.  Row padding at 24 bits per pixel.  A width of 3 gives
    9 bytes per row and a padding of 3; a width of 4 gives 12 bytes per
    row and a padding of 0, in the decoder and in the encoder alike; and
    these are the smallest non-negative paddings reaching a multiple of
    4. *)
Theorem padding_width_3_and_4 (fs st h : Z) :
  let width_3 := mkHeader fs st 3 h 24 in
  let width_4 := mkHeader fs st 4 h 24 in
  scanline_size width_3 = 9 ∧ scanline_padding (scanline_size width_3) = 3
  ∧ scanline_size width_4 = 12 ∧ scanline_padding (scanline_size width_4) = 0
  ∧ padding_bytes (3 *i 3) = 3 ∧ padding_bytes (4 *i 3) = 0
  ∧ least_padding 9 (scanline_padding 9) ∧ least_padding 12 (scanline_padding 12).
Proof.
  cbv zeta. split_and!; try (vm_compute; reflexivity); apply scanline_padding_least; lia.
Qed.

Lemma byte_grid_pixel image r c p :
  byte_grid image → pixel_at image r c = Some p → in_byte_range p.
Proof.
  intros Hb Hp. unfold pixel_at in Hp.
  destruct (image !! r) as [row|] eqn:Hrow; simpl in Hp; [|done].
  pose proof (proj1 (Forall_lookup _ _) Hb r row Hrow) as Hr.
  by apply (proj1 (Forall_lookup _ _) Hr c p).
Qed.

(** C1.  Round trip through the codec.  For a grid of [H > 0] rows of
    [W] pixels whose channels are bytes, and whose 24-bit file (54
    header bytes and the padded rows) has a size that fits the [int] of
    the program, the encoder writes a file and the decoder reads the
    same grid back from it. *)
Theorem codec_round_trip (H W : nat) (image : Image) :
  grid H W image → (0 < H)%nat → byte_grid image →
  int_sized H W → encoded_size H W <= INT_MAX →
  ∃ bytes, write_image image = Some bytes ∧ read_image bytes = Some image.
Proof.
  intros Hg Hpos Hbytes Hsz Hsize. exists (encoded H W image). split.
  - by apply write_image_eq.
  - apply read_image_encoded; try done.
    intros r c p. by apply byte_grid_pixel.
Qed.

Lemma codec_round_trip_witness :
  ∃ bytes, write_image example_grid = Some bytes ∧ read_image bytes = Some example_grid.
Proof.
  apply (codec_round_trip 2 3 example_grid).
  - split; [reflexivity|]. repeat constructor.
  - lia.
  - repeat constructor; simpl; lia.
  - split; vm_compute; discriminate.
  - vm_compute. discriminate.
Defined.

(** C10.  The encoder stores every channel modulo 256.  For every grid
    of [H > 0] rows of [W] pixels, whatever the channel values, the
    encoder writes a file in which the pixel at row [r] and column [c]
    occupies three bytes, blue, green and red, each the channel value
    modulo 256: values outside [0, 255] are neither clamped nor
    rejected.  A red channel of 256 is written as the byte 0. *)
Theorem encode_wraps_channels (H W : nat) (image : Image) :
  grid H W image → (0 < H)%nat → int_sized H W →
  (∃ bytes, write_image image = Some bytes ∧
     ∀ r c p, pixel_at image r c = Some p →
       let at_pixel := (54 + (H - 1 - r) * (W * 3 + Z.to_nat (file_padding W)) + c * 3)%nat in
       bytes !! at_pixel = Some (blue p mod 256)
       ∧ bytes !! (at_pixel + 1)%nat = Some (green p mod 256)
       ∧ bytes !! (at_pixel + 2)%nat = Some (red p mod 256))
  ∧ (∃ bytes, write_image [[mkPixel 256 0 0]] = Some bytes ∧ bytes !! 56%nat = Some 0).
Proof.
  intros Hg Hpos Hsz. split.
  - exists (encoded H W image). split; [by apply write_image_eq|].
    intros r c p Hp at_pixel.
    pose proof (encoded_pixel_lookup H W image r c 0 p Hg Hp) as H0.
    pose proof (encoded_pixel_lookup H W image r c 1 p Hg Hp) as H1.
    pose proof (encoded_pixel_lookup H W image r c 2 p Hg Hp) as H2.
    unfold at_pixel.
    change (Some (blue p `mod` 256)) with (pixel_bytes p !! 0%nat).
    change (Some (green p `mod` 256)) with (pixel_bytes p !! 1%nat).
    change (Some (red p `mod` 256)) with (pixel_bytes p !! 2%nat).
    split_and!.
    + rewrite <- (H0 ltac:(lia)). f_equal. lia.
    + rewrite <- (H1 ltac:(lia)). f_equal. lia.
    + rewrite <- (H2 ltac:(lia)). f_equal. lia.
  - eexists. split; [vm_compute; reflexivity|]. reflexivity.
Qed.

Lemma encode_wraps_channels_witness :
  ∃ bytes, write_image [[mkPixel 300 (-1) 256; mkPixel 0 0 0]] = Some bytes
           ∧ bytes !! 54%nat = Some 0 ∧ bytes !! 55%nat = Some 255 ∧ bytes !! 56%nat = Some 44.
Proof.
  destruct (proj1 (encode_wraps_channels 1 2 [[mkPixel 300 (-1) 256; mkPixel 0 0 0]]
              ltac:(split; [reflexivity|repeat constructor]) ltac:(lia)
              ltac:(split; vm_compute; discriminate)))
    as (bytes & Hbytes & Hpx).
  exists bytes. split; [done|].
  apply (Hpx 0%nat 0%nat (mkPixel 300 (-1) 256)). reflexivity.
Defined.

(** * The transforms *)

(** ** Grayscale *)

(** On bytes the [int] expression [(red + green + blue) / 3] is the mean
    rounded down. *)
Lemma int_mean_bytes r g b :
  0 <= r <= 255 → 0 <= g <= 255 → 0 <= b <= 255 →
  (r +i g +i b) /i 3 = (r + g + b) / 3.
Proof.
  intros Hr Hg Hb.
  assert (r +i g +i b = r + g + b) as -> by (unwrap; done).
  unfold int_div. rewrite Z.quot_div_nonneg by lia.
  apply wrap_small. unfold INT_MAX. lia.
Qed.

(** On bytes the gray value is the mean rounded down: the division by 3
    is an integer division, after which adding one half changes nothing. *)
Lemma gray_value_3_floor r g b :
  0 <= r <= 255 → 0 <= g <= 255 → 0 <= b <= 255 →
  gray_value_3 r g b = (r + g + b) / 3.
Proof.
  intros Hr Hg Hb. unfold gray_value_3. rewrite int_mean_bytes by done.
  apply plus_half_trunc_nonneg. lia.
Qed.

(** On a grid of bytes [process_3] sets every channel to the mean
    rounded down. *)
Lemma process_3_floor H W image :
  grid H W image → (0 < H)%nat → int_sized H W → byte_grid image →
  ∃ out, process_3 image = Some out ∧ grid H W out
         ∧ ∀ r c p, pixel_at image r c = Some p →
             let m := (red p + green p + blue p) / 3 in
             pixel_at out r c = Some (mkPixel m m m).
Proof.
  intros Hg Hpos Hsz Hb.
  destruct (process_3_pointwise H W image Hg Hpos Hsz) as (out & Hout & Hgo & Hpx).
  exists out. split; [done|]. split; [done|].
  intros r c p Hp. destruct (byte_grid_pixel _ _ _ _ Hb Hp) as (? & ? & ?).
  specialize (Hpx r c p Hp). simpl in Hpx. by rewrite gray_value_3_floor in Hpx.
Qed.

(** C4, at the pixel (0, 0, 2).  The mean is 2/3 and the nearest integer
    is 1, but [process_3] sets the three channels to 0. *)
Theorem grayscale_rounds_down :
  process_3 [[mkPixel 0 0 2]] = Some [[mkPixel 0 0 0]]
  ∧ nearest_to_mean 0 0 2 1
  ∧ ¬ nearest_to_mean 0 0 2 0.
Proof.
  split_and!; [vm_compute; reflexivity|unfold nearest_to_mean; lia..].
Qed.

(** ** High contrast *)

Lemma contrast_7_threshold r g b :
  contrast_7 r g b = if decide (127 <= (r +i g +i b) /i 3) then white else black.
Proof.
  unfold contrast_7. change (255 /i 2) with 127. cbv zeta.
  repeat case_decide; done || lia.
Qed.

(** C5 as stated fails at the pixel (127, 127, 127): its mean is 127,
    below 128, and [process_7] makes it white. *)
Lemma high_contrast_at_127 :
  process_7 [[mkPixel 127 127 127]] = Some [[white]]
  ∧ spec_high_contrast (mkPixel 127 127 127) = black.
Proof. split; vm_compute; reflexivity. Qed.

(** C5, amended.  For every grid of [H > 0] rows of [W] pixels,
    [process_7] returns a grid of the same dimensions in which a pixel
    is white when the integer quotient [(red + green + blue) / 3] is at
    least 127, the value of [255 / 2], and black otherwise.  For bytes
    the quotient is the mean rounded down. *)
Theorem high_contrast_threshold (H W : nat) (image : Image) :
  grid H W image → (0 < H)%nat → int_sized H W →
  ∃ out, process_7 image = Some out ∧ grid H W out ∧
    ∀ r c p, pixel_at image r c = Some p →
      pixel_at out r c
      = Some (if decide (127 <= (red p +i green p +i blue p) /i 3) then white else black)
      ∧ (in_byte_range p →
         (red p +i green p +i blue p) /i 3 = (red p + green p + blue p) / 3).
Proof.
  intros Hg Hpos Hsz.
  destruct (process_7_pointwise H W image Hg Hpos Hsz) as (out & Hout & Hgo & Hpx).
  exists out. split; [done|]. split; [done|].
  intros r c p Hp. split.
  - rewrite (Hpx r c p Hp). f_equal. apply contrast_7_threshold.
  - intros (Hr & Hgr & Hb). by apply int_mean_bytes.
Qed.

Lemma high_contrast_threshold_witness :
  ∃ out, process_7 example_grid = Some out ∧ grid 2 3 out
         ∧ pixel_at out 1 2 = Some white ∧ pixel_at out 0 0 = Some black.
Proof.
  destruct (high_contrast_threshold 2 3 example_grid
              ltac:(split; [reflexivity|repeat constructor]) ltac:(lia)
              ltac:(split; vm_compute; discriminate))
    as (out & Hout & Hgo & Hpx).
  exists out. split; [done|]. split; [done|]. split.
  - apply (proj1 (Hpx 1%nat 2%nat (mkPixel 200 17 255) eq_refl)).
  - apply (proj1 (Hpx 0%nat 0%nat (mkPixel 1 2 3) eq_refl)).
Defined.

(** ** Posterize *)

Lemma posterize_10_bytes p :
  in_byte_range p → posterize_10 (red p) (green p) (blue p) = spec_posterize5 p.
Proof.
  intros (Hr & Hg & Hb). unfold posterize_10, spec_posterize5. cbv zeta.
  assert (red p +i green p +i blue p = red p + green p + blue p) as -> by (unwrap; done).
  repeat case_decide; done || lia.
Qed.

(** C9.  For every grid of [H > 0] rows of [W] pixels, [process_10]
    returns a grid of the same dimensions in which a pixel with byte
    channels becomes white when its channels sum to 550 or more, black
    when they sum to 150 or less, and otherwise pure red, green or blue
    after its largest channel, red before green before blue on ties. *)
Theorem posterize_classes (H W : nat) (image : Image) :
  grid H W image → (0 < H)%nat → int_sized H W →
  ∃ out, process_10 image = Some out ∧ grid H W out ∧
    ∀ r c p, pixel_at image r c = Some p → in_byte_range p →
      pixel_at out r c = Some (spec_posterize5 p).
Proof.
  intros Hg Hpos Hsz.
  destruct (process_10_pointwise H W image Hg Hpos Hsz) as (out & Hout & Hgo & Hpx).
  exists out. split; [done|]. split; [done|].
  intros r c p Hp Hb. rewrite (Hpx r c p Hp). f_equal. by apply posterize_10_bytes.
Qed.

Lemma posterize_classes_witness :
  ∃ out, process_10 example_grid = Some out ∧ grid 2 3 out
         ∧ pixel_at out 1 2 = Some pure_blue ∧ pixel_at out 0 0 = Some black.
Proof.
  destruct (posterize_classes 2 3 example_grid
              ltac:(split; [reflexivity|repeat constructor]) ltac:(lia)
              ltac:(split; vm_compute; discriminate))
    as (out & Hout & Hgo & Hpx).
  exists out. split; [done|]. split; [done|]. split.
  - apply (Hpx 1%nat 2%nat (mkPixel 200 17 255) eq_refl).
    unfold in_byte_range. simpl. lia.
  - apply (Hpx 0%nat 0%nat (mkPixel 1 2 3) eq_refl).
    unfold in_byte_range. simpl. lia.
Defined.

(** ** Rotation *)

(** C7.  For every grid of [H > 0] rows of [W] pixels, [process_4]
    returns a grid of [W] rows of [H] pixels in which the pixel of row
    [r] and column [c] of the input stands at row [c] and column
    [H - 1 - r]. *)
Theorem rotate90_index_map (H W : nat) (image : Image) :
  grid H W image → (0 < H)%nat → int_sized H W →
  ∃ out, process_4 image = Some out ∧ grid W H out ∧
    ∀ r c, (r < H)%nat → (c < W)%nat →
      is_Some (pixel_at image r c)
      ∧ pixel_at out c (H - 1 - r) = pixel_at image r c.
Proof.
  intros Hg Hpos Hsz.
  destruct (process_4_grid H W image Hg Hpos Hsz) as (out & Hout & Hgo & Hpx).
  exists out. split; [done|]. split; [done|].
  intros r c Hr Hc. split; [by eapply grid_pixel|by apply Hpx].
Qed.

Lemma rotate90_index_map_witness :
  ∃ out, process_4 example_grid = Some out ∧ grid 3 2 out
         ∧ pixel_at out 2 1 = Some (mkPixel 7 8 9).
Proof.
  destruct (rotate90_index_map 2 3 example_grid
              ltac:(split; [reflexivity|repeat constructor]) ltac:(lia)
              ltac:(split; vm_compute; discriminate))
    as (out & Hout & Hgo & Hpx).
  exists out. split; [done|]. split; [done|].
  apply (proj2 (Hpx 0%nat 2%nat ltac:(lia) ltac:(lia))).
Defined.

Lemma bind_Some_r {A} (m : option A) : (x ← m; Some x) = m.
Proof. by destruct m. Qed.

(** For a number of quarter turns that is not negative and whose angle
    fits an [int], [process_5] is Rotate90 applied [number mod 4] times. *)
Lemma process_5_nonneg image number :
  0 <= number → number * 90 <= INT_MAX →
  process_5 image number = spec_rotate_n image number.
Proof.
  intros Hn Hmax. unfold process_5, spec_rotate_n. cbv zeta.
  assert (number *i 90 = number * 90) as -> by (unwrap; done).
  unfold int_rem.
  assert (Z.rem (number * 90) 90 = 0) as Hrem by (rewrite Z.rem_mod_nonneg by lia; lia).
  rewrite decide_False by (rewrite Hrem; intros Hne; by apply Hne).
  assert (Z.rem (number * 90) 360 = 90 * (number mod 4)) as ->.
  { rewrite Z.rem_mod_nonneg by lia. lia. }
  assert (number mod 4 = 0 ∨ number mod 4 = 1 ∨ number mod 4 = 2 ∨ number mod 4 = 3)
    as [-> | [-> | [-> | ->]]] by lia; simpl.
  - done.
  - by rewrite bind_Some_r.
  - destruct (process_4 image); simpl; [by rewrite bind_Some_r|done].
  - destruct (process_4 image) as [once|]; simpl; [|done].
    destruct (process_4 once); simpl; [by rewrite bind_Some_r|done].
Qed.

(** C6, at [number = -2] on a grid of one row and two pixels.  The angle
    is -180 and [-180 % 360] is -180, which is none of 0, 90 and 180, so
    [process_5] takes its last branch and rotates three times; Rotate90
    applied [(-2) mod 4 = 2] times gives another grid. *)
Theorem rotate_n_minus_2 :
  let image := [[mkPixel 1 0 0; mkPixel 2 0 0]] in
  process_5 image (-2) = rotate_times 3 image
  ∧ process_5 image (-2) = Some [[mkPixel 2 0 0]; [mkPixel 1 0 0]]
  ∧ spec_rotate_n image (-2) = Some [[mkPixel 2 0 0; mkPixel 1 0 0]]
  ∧ process_5 image (-2) ≠ spec_rotate_n image (-2).
Proof.
  cbv zeta. split_and!; try (vm_compute; reflexivity). vm_compute. discriminate.
Qed.

(** ** Enlargement *)

(** C8.  For every grid of [H > 0] rows of [W] pixels and scales of at
    least 1 for which the enlarged dimensions fit an [int], [process_6]
    returns a grid of [H * y_scale] rows of [W * x_scale] pixels whose
    pixel at [(r, c)] is the input pixel at [(r / y_scale, c / x_scale)],
    the quotients rounded down; with both scales 1 the output is the
    input. *)
Theorem enlarge_nearest_neighbour (H W : nat) (image : Image) (x_scale y_scale : Z) :
  grid H W image → (0 < H)%nat → 1 <= x_scale → 1 <= y_scale →
  Z.of_nat H * y_scale <= INT_MAX → Z.of_nat W * x_scale <= INT_MAX →
  ∃ out, process_6 image x_scale y_scale = Some out
    ∧ grid (H * Z.to_nat y_scale) (W * Z.to_nat x_scale) out
    ∧ (∀ r c, (r < H * Z.to_nat y_scale)%nat → (c < W * Z.to_nat x_scale)%nat →
         is_Some (pixel_at out r c)
         ∧ pixel_at out r c
           = pixel_at image (Z.to_nat (Z.of_nat r / y_scale)) (Z.to_nat (Z.of_nat c / x_scale)))
    ∧ (x_scale = 1 → y_scale = 1 → out = image).
Proof.
  intros Hg Hpos Hx Hy HHy HWx.
  destruct (process_6_grid H W image (Z.to_nat x_scale) (Z.to_nat y_scale))
    as (out & Hout & Hgo & Hpx); [done|done|lia|lia|split; lia|].
  rewrite !Z2Nat.id in Hout by lia.
  exists out. split; [done|]. split; [done|]. split.
  - intros r c Hr Hc. split; [by eapply grid_pixel|].
    rewrite (Hpx r c Hr Hc). f_equal.
    + rewrite <- (Z2Nat.id y_scale) at 2 by lia. by rewrite <- Nat2Z.inj_div, Nat2Z.id.
    + rewrite <- (Z2Nat.id x_scale) at 2 by lia. by rewrite <- Nat2Z.inj_div, Nat2Z.id.
  - intros -> ->. change (Z.to_nat 1) with 1%nat in *.
    rewrite !Nat.mul_1_r in *.
    apply (grid_ext H W); [done..|]. intros r c Hr Hc.
    rewrite (Hpx r c Hr Hc). by rewrite !Nat.div_1_r.
Qed.

Lemma enlarge_nearest_neighbour_witness :
  ∃ out, process_6 example_grid 2 3 = Some out ∧ grid 6 6 out
         ∧ pixel_at out 5 3 = Some (mkPixel 13 14 15).
Proof.
  destruct (enlarge_nearest_neighbour 2 3 example_grid 2 3
              ltac:(split; [reflexivity|repeat constructor]) ltac:(lia)
              ltac:(lia) ltac:(lia) ltac:(vm_compute; discriminate)
              ltac:(vm_compute; discriminate))
    as (out & Hout & Hgo & Hpx & _).
  exists out. split; [done|]. split; [done|].
  apply (proj2 (Hpx 5%nat 3%nat ltac:(simpl; lia) ltac:(simpl; lia))).
Defined.

(** * Further properties of the transforms *)

(** ** Idempotence of the pixel classifiers *)

(** A transform that maps every pixel through [f] is idempotent on a
    grid where [f] fixes the values it produces. *)
Lemma pointwise_idempotent H W (P : Image → option Image) (f : Pixel → Pixel) image :
  (∀ g, grid H W g →
     ∃ out, P g = Some out ∧ grid H W out
            ∧ ∀ r c p, pixel_at g r c = Some p → pixel_at out r c = Some (f p)) →
  (∀ r c p, pixel_at image r c = Some p → f (f p) = f p) →
  grid H W image →
  ∃ out, P image = Some out ∧ grid H W out ∧ P out = Some out.
Proof.
  intros HP Hf Hg.
  destruct (HP image Hg) as (out & Hout & Hgo & Hpx).
  destruct (HP out Hgo) as (out2 & Hout2 & Hgo2 & Hpx2).
  exists out. split; [done|]. split; [done|]. rewrite Hout2. f_equal.
  apply (grid_ext H W); [done..|]. intros r c Hr Hc.
  destruct (grid_pixel _ _ _ _ _ Hg Hr Hc) as [p Hp].
  rewrite (Hpx2 r c (f p) (Hpx r c p Hp)), (Hpx r c p Hp).
  f_equal. by eapply Hf.
Qed.

Lemma contrast_7_fixed r g b :
  let q := contrast_7 r g b in contrast_7 (red q) (green q) (blue q) = q.
Proof. cbv zeta. unfold contrast_7 at 2 3 4 5. cbv zeta. case_decide; reflexivity. Qed.

Lemma posterize_10_fixed r g b :
  let q := posterize_10 r g b in posterize_10 (red q) (green q) (blue q) = q.
Proof.
  cbv zeta. unfold posterize_10 at 2 3 4 5. cbv zeta. repeat case_decide; reflexivity.
Qed.

(** X12.  HighContrast applied to its own output changes nothing, whatever the
    channel values of the input. *)
Theorem high_contrast_idempotent (H W : nat) (image : Image) :
  grid H W image → (0 < H)%nat → int_sized H W →
  ∃ out, process_7 image = Some out ∧ grid H W out ∧ process_7 out = Some out.
Proof.
  intros Hg Hpos Hsz.
  apply (pointwise_idempotent H W process_7
           (λ p, contrast_7 (red p) (green p) (blue p))); [|by intros; apply contrast_7_fixed|done].
  intros g Hgg. by apply process_7_pointwise.
Qed.

Lemma high_contrast_idempotent_witness :
  ∃ out, process_7 example_grid = Some out ∧ grid 2 3 out ∧ process_7 out = Some out.
Proof.
  apply (high_contrast_idempotent 2 3 example_grid).
  - split; [reflexivity|repeat constructor].
  - lia.
  - split; vm_compute; discriminate.
Defined.

(** X13.  Posterize applied to its own output changes nothing, whatever the
    channel values of the input. *)
Theorem posterize_idempotent (H W : nat) (image : Image) :
  grid H W image → (0 < H)%nat → int_sized H W →
  ∃ out, process_10 image = Some out ∧ grid H W out ∧ process_10 out = Some out.
Proof.
  intros Hg Hpos Hsz.
  apply (pointwise_idempotent H W process_10
           (λ p, posterize_10 (red p) (green p) (blue p))); [|by intros; apply posterize_10_fixed|done].
  intros g Hgg. by apply process_10_pointwise.
Qed.

Lemma posterize_idempotent_witness :
  ∃ out, process_10 example_grid = Some out ∧ grid 2 3 out ∧ process_10 out = Some out.
Proof.
  apply (posterize_idempotent 2 3 example_grid).
  - split; [reflexivity|repeat constructor].
  - lia.
  - split; vm_compute; discriminate.
Defined.

(** X14.  Grayscale applied to its own output changes nothing when the
    channels of the input are bytes. *)
Theorem grayscale_idempotent (H W : nat) (image : Image) :
  grid H W image → (0 < H)%nat → int_sized H W → byte_grid image →
  ∃ out, process_3 image = Some out ∧ grid H W out ∧ process_3 out = Some out.
Proof.
  intros Hg Hpos Hsz Hb.
  apply (pointwise_idempotent H W process_3
           (λ p, let v := gray_value_3 (red p) (green p) (blue p) in mkPixel v v v)); [| |done].
  - intros g Hgg. by apply process_3_pointwise.
  - intros r c p Hp. destruct (byte_grid_pixel _ _ _ _ Hb Hp) as (Hr & Hgr & Hbl).
    cbv zeta. simpl. rewrite (gray_value_3_floor (red p)) by done.
    set (m := (red p + green p + blue p) / 3).
    assert (0 <= m <= 255) by (unfold m; lia).
    rewrite gray_value_3_floor by done.
    replace ((m + m + m) / 3) with m by lia. done.
Qed.

Lemma grayscale_idempotent_witness :
  ∃ out, process_3 example_grid = Some out ∧ grid 2 3 out ∧ process_3 out = Some out.
Proof.
  apply (grayscale_idempotent 2 3 example_grid).
  - split; [reflexivity|repeat constructor].
  - lia.
  - split; vm_compute; discriminate.
  - repeat constructor; simpl; lia.
Defined.

(** ** The rotation group *)

(** [process_4] read from the output side. *)
Lemma process_4_source H W image :
  grid H W image → (0 < H)%nat → int_sized H W →
  ∃ out, process_4 image = Some out ∧ grid W H out
         ∧ ∀ a b, (a < W)%nat → (b < H)%nat →
             pixel_at out a b = pixel_at image (H - 1 - b) a.
Proof.
  intros Hg Hpos Hsz.
  destruct (process_4_grid H W image Hg Hpos Hsz) as (out & Hout & Hgo & Hpx).
  exists out. split; [done|]. split; [done|].
  intros a b Ha Hb. rewrite <- (Hpx (H - 1 - b)%nat a) by lia. f_equal. lia.
Qed.

Lemma rotate_times_add a b image :
  rotate_times (a + b) image = (image' ← rotate_times a image; rotate_times b image').
Proof.
  revert image. induction a as [|a IH]; intros image; [done|].
  simpl. destruct (process_4 image) as [once|]; simpl; [apply IH|done].
Qed.

Lemma rotate_twice_grid H W image :
  grid H W image → (0 < H)%nat → (0 < W)%nat → int_sized H W →
  ∃ out, rotate_times 2 image = Some out ∧ grid H W out
         ∧ ∀ r c, (r < H)%nat → (c < W)%nat →
             pixel_at out r c = pixel_at image (H - 1 - r) (W - 1 - c).
Proof.
  intros Hg HH HW [HHm HWm].
  destruct (process_4_source H W image Hg HH (conj HHm HWm)) as (g1 & E1 & G1 & P1).
  destruct (process_4_source W H g1 G1 HW (conj HWm HHm)) as (g2 & E2 & G2 & P2).
  exists g2. simpl. rewrite E1. simpl. rewrite E2. simpl.
  split; [done|]. split; [done|]. intros r c Hr Hc.
  rewrite P2, P1 by lia. done.
Qed.

Lemma four_quarter_turns H W image :
  grid H W image → (0 < H)%nat → (0 < W)%nat → int_sized H W →
  rotate_times 4 image = Some image.
Proof.
  intros Hg HH HW Hsz.
  destruct (rotate_twice_grid H W image Hg HH HW Hsz) as (g2 & E2 & G2 & P2).
  destruct (rotate_twice_grid H W g2 G2 HH HW Hsz) as (g4 & E4 & G4 & P4).
  change 4%nat with (2 + 2)%nat. rewrite rotate_times_add, E2.
  change (rotate_times 2 g2 = Some image). rewrite E4. f_equal. apply (grid_ext H W); [done..|].
  intros r c Hr Hc. rewrite P4, P2 by lia. f_equal; lia.
Qed.

(** X15.  Four quarter turns give the grid back. *)
Theorem rotate_four_times_identity (H W : nat) (image : Image) :
  grid H W image → (0 < H)%nat → (0 < W)%nat → int_sized H W →
  rotate_times 4 image = Some image.
Proof. apply four_quarter_turns. Qed.

Lemma rotate_four_times_identity_witness : rotate_times 4 example_grid = Some example_grid.
Proof.
  apply (rotate_four_times_identity 2 3 example_grid).
  - split; [reflexivity|repeat constructor].
  - lia.
  - lia.
  - split; vm_compute; discriminate.
Defined.

(** X16.  Two quarter turns, asked of [process_5], turn the grid upside down
    and mirror it: the pixel at [(r, c)] comes from [(H-1-r, W-1-c)]. *)
Theorem rotate_half_turn (H W : nat) (image : Image) :
  grid H W image → (0 < H)%nat → (0 < W)%nat → int_sized H W →
  ∃ out, process_5 image 2 = Some out ∧ grid H W out
         ∧ ∀ r c, (r < H)%nat → (c < W)%nat →
             pixel_at out r c = pixel_at image (H - 1 - r) (W - 1 - c).
Proof.
  intros Hg HH HW Hsz.
  destruct (rotate_twice_grid H W image Hg HH HW Hsz) as (g2 & E2 & G2 & P2).
  exists g2. split; [|done].
  rewrite process_5_nonneg by (unfold INT_MAX; lia). exact E2.
Qed.

Lemma rotate_half_turn_witness :
  ∃ out, process_5 example_grid 2 = Some out ∧ grid 2 3 out
         ∧ pixel_at out 0 0 = Some (mkPixel 200 17 255).
Proof.
  destruct (rotate_half_turn 2 3 example_grid
              ltac:(split; [reflexivity|repeat constructor]) ltac:(lia) ltac:(lia)
              ltac:(split; vm_compute; discriminate))
    as (out & Hout & Hgo & Hpx).
  exists out. split; [done|]. split; [done|].
  apply (Hpx 0%nat 0%nat ltac:(lia) ltac:(lia)).
Defined.

Lemma rotate_times_some k : ∀ H W image,
  grid H W image → (0 < H)%nat → (0 < W)%nat → int_sized H W →
  is_Some (rotate_times k image).
Proof.
  induction k as [|k IH]; intros H W image Hg HH HW [HHm HWm]; [by eexists|].
  destruct (process_4_source H W image Hg HH (conj HHm HWm)) as (g1 & E1 & G1 & _).
  simpl. rewrite E1. simpl. by apply (IH W H).
Qed.

(** X17.  Rotating by [n] and then by [m] quarter turns is rotating by
    [n + m], for numbers that are not negative. *)
Theorem rotate_n_compose (H W : nat) (image : Image) (n m : Z) :
  grid H W image → (0 < H)%nat → (0 < W)%nat → int_sized H W →
  0 <= n → 0 <= m → (n + m) * 90 <= INT_MAX →
  (image' ← process_5 image n; process_5 image' m) = process_5 image (n + m)
  ∧ is_Some (process_5 image (n + m)).
Proof.
  intros Hg HH HW Hsz Hn Hm Hmax.
  rewrite (process_5_nonneg image n), (process_5_nonneg image (n + m)) by lia.
  assert ((image' ← spec_rotate_n image n; process_5 image' m)
          = (image' ← spec_rotate_n image n; spec_rotate_n image' m)) as ->.
  { destruct (spec_rotate_n image n); simpl; [|done]. apply process_5_nonneg; lia. }
  unfold spec_rotate_n. rewrite <- rotate_times_add.
  split; [|by eapply rotate_times_some].
  set (a := Z.to_nat (n mod 4)). set (b := Z.to_nat (m mod 4)).
  set (c := Z.to_nat ((n + m) mod 4)).
  assert (a + b = c ∨ a + b = 4 + c)%nat as [->| ->] by (unfold a, b, c; lia); [done|].
  rewrite rotate_times_add, (four_quarter_turns H W) by done. done.
Qed.

Lemma rotate_n_compose_witness :
  (image' ← process_5 example_grid 3; process_5 image' 2) = process_5 example_grid 5
  ∧ is_Some (process_5 example_grid 5).
Proof.
  apply (rotate_n_compose 2 3 example_grid 3 2).
  - split; [reflexivity|repeat constructor].
  - lia.
  - lia.
  - split; vm_compute; discriminate.
  - lia.
  - lia.
  - vm_compute. discriminate.
Defined.

(** ** Pixel maps commute with the rotation *)

Lemma pointwise_rotation_commute H W (P : Image → option Image) (f : Pixel → Pixel) image :
  (∀ H W g, grid H W g → (0 < H)%nat → int_sized H W →
     ∃ out, P g = Some out ∧ grid H W out
            ∧ ∀ r c p, pixel_at g r c = Some p → pixel_at out r c = Some (f p)) →
  grid H W image → (0 < H)%nat → (0 < W)%nat → int_sized H W →
  ∃ out, (g ← P image; process_4 g) = Some out
         ∧ (g ← process_4 image; P g) = Some out.
Proof.
  intros HP Hg HH HW [HHm HWm].
  destruct (HP H W image Hg HH (conj HHm HWm)) as (g3 & E3 & G3 & P3).
  destruct (process_4_source H W g3 G3 HH (conj HHm HWm)) as (r1 & E1 & G1 & P1).
  destruct (process_4_source H W image Hg HH (conj HHm HWm)) as (g4 & E4 & G4 & P4).
  destruct (HP W H g4 G4 HW (conj HWm HHm)) as (r2 & E2 & G2 & P2).
  exists r1. rewrite E3, E4. simpl. split; [done|]. rewrite E2. f_equal.
  apply (grid_ext W H); [done..|]. intros a b Ha Hb.
  assert (H - 1 - b < H)%nat as Hr by lia.
  destruct (grid_pixel _ _ _ _ _ Hg Hr Ha) as [p Hp].
  rewrite (P1 a b Ha Hb), (P3 _ _ p Hp).
  apply P2. by rewrite (P4 a b Ha Hb).
Qed.

(** X19.  Grayscale, HighContrast and Posterize can be applied before or after
    a quarter turn with the same result. *)
Theorem classifiers_commute_with_rotation (H W : nat) (image : Image) :
  grid H W image → (0 < H)%nat → (0 < W)%nat → int_sized H W →
  (∃ out, (g ← process_3 image; process_4 g) = Some out
          ∧ (g ← process_4 image; process_3 g) = Some out)
  ∧ (∃ out, (g ← process_7 image; process_4 g) = Some out
            ∧ (g ← process_4 image; process_7 g) = Some out)
  ∧ (∃ out, (g ← process_10 image; process_4 g) = Some out
            ∧ (g ← process_4 image; process_10 g) = Some out).
Proof.
  intros Hg HH HW Hsz. split_and!.
  - apply (pointwise_rotation_commute H W process_3
             (λ p, let v := gray_value_3 (red p) (green p) (blue p) in mkPixel v v v));
      [|done..]. intros; by apply process_3_pointwise.
  - apply (pointwise_rotation_commute H W process_7
             (λ p, contrast_7 (red p) (green p) (blue p))); [|done..].
    intros; by apply process_7_pointwise.
  - apply (pointwise_rotation_commute H W process_10
             (λ p, posterize_10 (red p) (green p) (blue p))); [|done..].
    intros; by apply process_10_pointwise.
Qed.

Lemma classifiers_commute_with_rotation_witness :
  ∃ out, (g ← process_3 example_grid; process_4 g) = Some out
         ∧ (g ← process_4 example_grid; process_3 g) = Some out.
Proof.
  apply (classifiers_commute_with_rotation 2 3 example_grid).
  - split; [reflexivity|repeat constructor].
  - lia.
  - lia.
  - split; vm_compute; discriminate.
Defined.

(** ** Enlargements compose *)

(** X20.  Enlarging by [(x1, y1)] and then by [(x2, y2)] is enlarging by
    [(x1 * x2, y1 * y2)]. *)
Theorem enlarge_compose (H W : nat) (image : Image) (x1 y1 x2 y2 : Z) :
  grid H W image → (0 < H)%nat → (0 < W)%nat →
  1 <= x1 → 1 <= y1 → 1 <= x2 → 1 <= y2 →
  Z.of_nat H * y1 * y2 <= INT_MAX → Z.of_nat W * x1 * x2 <= INT_MAX →
  ∃ out, (g ← process_6 image x1 y1; process_6 g x2 y2) = Some out
         ∧ process_6 image (x1 * x2) (y1 * y2) = Some out.
Proof.
  intros Hg HH HW Hx1 Hy1 Hx2 Hy2 HHm HWm.
  set (a1 := Z.to_nat x1). set (b1 := Z.to_nat y1).
  set (a2 := Z.to_nat x2). set (b2 := Z.to_nat y2).
  destruct (process_6_grid H W image a1 b1) as (g1 & E1 & G1 & P1);
    [done|done|unfold a1; lia|unfold b1; lia|unfold a1, b1; split; nia|].
  destruct (process_6_grid (H * b1) (W * a1) g1 a2 b2) as (g2 & E2 & G2 & P2);
    [done|unfold b1; nia|unfold a2; lia|unfold b2; lia|unfold a1, b1, a2, b2; split; nia|].
  destruct (process_6_grid H W image (a1 * a2) (b1 * b2)) as (g3 & E3 & G3 & P3);
    [done|done|unfold a1, a2; nia|unfold b1, b2; nia|unfold a1, b1, a2, b2; split; nia|].
  unfold a1, b1, a2, b2 in *.
  rewrite !Z2Nat.id in E1 by lia. rewrite !Z2Nat.id in E2 by lia.
  rewrite !Nat2Z.inj_mul in E3. rewrite !Z2Nat.id in E3 by lia.
  exists g2. rewrite E1. simpl. split; [done|]. rewrite E3. f_equal.
  rewrite !Nat.mul_assoc in G3.
  apply (grid_ext _ _ _ _ G3 G2). intros r c Hr Hc.
  rewrite P3, P2 by (rewrite ?Nat.mul_assoc; done).
  rewrite P1.
  - by rewrite !Nat.Div0.div_div, (Nat.mul_comm (Z.to_nat y2)), (Nat.mul_comm (Z.to_nat x2)).
  - apply Nat.Div0.div_lt_upper_bound. lia.
  - apply Nat.Div0.div_lt_upper_bound. lia.
Qed.

Lemma enlarge_compose_witness :
  ∃ out, (g ← process_6 example_grid 2 1; process_6 g 1 2) = Some out
         ∧ process_6 example_grid (2 * 1) (1 * 2) = Some out.
Proof.
  apply (enlarge_compose 2 3 example_grid 2 1 1 2);
    try lia; try (vm_compute; discriminate).
  split; [reflexivity|repeat constructor].
Defined.

(** * Further properties of the codec *)

(** ** The decoder on an arbitrary file *)

Lemma store_thrice H W image (i j : nat) r g b :
  grid H W image → (i < H)%nat → (j < W)%nat →
  (image1 ← store image (Z.of_nat i) (Z.of_nat j) (set_blue b);
   image2 ← store image1 (Z.of_nat i) (Z.of_nat j) (set_green g);
   store image2 (Z.of_nat i) (Z.of_nat j) (set_red r))
  = Some (grid_set image (i, j) (mkPixel r g b)).
Proof.
  intros Hg Hi Hj.
  destruct (grid_pixel _ _ _ _ _ Hg Hi Hj) as [p0 Hp0].
  rewrite (store_nat _ _ _ _ _ _ _ Hg Hp0). cbn [mbind option_bind].
  pose proof (grid_set_grid _ _ _ (i, j) (set_blue b p0) Hg) as Hg1.
  rewrite (store_nat _ _ _ _ _ _ _ Hg1 (pixel_at_grid_set_eq _ _ _ _ _ _ Hg Hi Hj)).
  cbn [mbind option_bind]. rewrite grid_set_twice.
  pose proof (grid_set_grid _ _ _ (i, j) (set_green g (set_blue b p0)) Hg) as Hg2.
  rewrite (store_nat _ _ _ _ _ _ _ Hg2 (pixel_at_grid_set_eq _ _ _ _ _ _ Hg Hi Hj)).
  by rewrite grid_set_twice.
Qed.

(** One pixel of [read_image], in any state of the stream. *)
Lemma read_pixel_eq bpp H W image (i j : nat) pos s :
  grid H W image → (i < H)%nat → (j < W)%nat →
  read_pixel bpp (Z.of_nat i) (Z.of_nat j) (image, pos, s)
  = Some (grid_set image (i, j)
            (mkPixel (get (get (get (seekg pos s)).2).2).1
                     (get (get (seekg pos s)).2).1
                     (get (seekg pos s)).1),
          pos +i bpp /i 8, (get (get (get (seekg pos s)).2).2).2).
Proof.
  intros Hg Hi Hj. unfold read_pixel.
  destruct (get (seekg pos s)) as [b s1]. cbn [fst snd].
  destruct (get s1) as [g s2]. cbn [fst snd].
  destruct (get s2) as [r s3]. cbn [fst snd].
  pose proof (store_thrice H W image i j r g b Hg Hi Hj) as Hst.
  destruct (store image (Z.of_nat i) (Z.of_nat j) (set_blue b)) as [image1|]; [|done].
  cbn [mbind option_bind] in *.
  destruct (store image1 (Z.of_nat i) (Z.of_nat j) (set_green g)) as [image2|]; [|done].
  cbn [mbind option_bind] in *.
  by rewrite Hst.
Qed.

Lemma get_int_loop_range n : ∀ s result base,
  -2147483648 <= result <= INT_MAX →
  -2147483648 <= (get_int_loop n s result base).1 <= INT_MAX.
Proof.
  induction n as [|n IH]; intros s result base Hr; [done|].
  simpl. destruct (get s) as [c s']. apply IH. apply wrap_range.
Qed.

Lemma read_header_range s :
  let hd := (read_header s).1 in
  -2147483648 <= width hd <= INT_MAX ∧ -2147483648 <= height hd <= INT_MAX.
Proof.
  unfold read_header.
  destruct (get_int s 2 4) as [fs s1].
  destruct (get_int s1 10 4) as [st s2].
  pose proof (get_int_loop_range (Z.to_nat 4) (seekg 18 s2) 0 1 ltac:(unfold INT_MAX; lia)) as Hw.
  fold (get_int s2 18 4) in Hw. destruct (get_int s2 18 4) as [w s3].
  pose proof (get_int_loop_range (Z.to_nat 4) (seekg 22 s3) 0 1 ltac:(unfold INT_MAX; lia)) as Hh.
  fold (get_int s3 22 4) in Hh. destruct (get_int s3 22 4) as [h s4].
  destruct (get_int s4 28 2) as [b s5]. simpl in *. done.
Qed.

(** The loops of [read_image] run to their end on a grid of the declared
    dimensions, in any state of the stream. *)
Lemma read_row_grid hd padding H W (i : nat) st :
  width hd = Z.of_nat W → grid H W st.1.1 → (i < H)%nat →
  ∃ st', read_row hd padding (Z.of_nat i) st = Some st' ∧ grid H W st'.1.1.
Proof.
  intros Hw Hg Hi. unfold read_row. rewrite Hw.
  destruct (for_lt_inv (λ _ t, grid H W t.1.1) (read_pixel (bits_per_pixel hd) (Z.of_nat i)) W st)
    as ([[image' pos'] s'] & Hloop & Hg'); [done| |].
  - intros j [[img pos] s] Hj Himg. simpl in Himg.
    rewrite (read_pixel_eq _ H W) by done.
    eexists. split; [done|]. simpl. by apply grid_set_grid.
  - rewrite Hloop. simpl. eexists. split; [done|]. done.
Qed.

Lemma read_rows_grid hd padding H W st :
  width hd = Z.of_nat W → grid H W st.1.1 →
  ∃ st', for_down H (read_row hd padding) st = Some st' ∧ grid H W st'.1.1.
Proof.
  intros Hw Hg.
  apply (for_down_inv (λ _ t, grid H W t.1.1)); [done|].
  intros k t Hk Ht. by apply read_row_grid.
Qed.

(** X1.  When the size test passes, [read_image] returns a grid of [height]
    rows of [width] pixels if neither field is negative, whatever the
    length of the file, and has no result (the vector constructor
    throws) if one of them is negative. *)
Theorem decode_outcome (s : fstream) :
  let hd := (read_header s).1 in
  file_size hd = expected_size hd →
  (0 <= height hd → 0 <= width hd →
     ∃ image, read_image_from s = Some image
              ∧ grid (Z.to_nat (height hd)) (Z.to_nat (width hd)) image)
  ∧ (height hd < 0 ∨ width hd < 0 → read_image_from s = None).
Proof.
  pose proof (read_header_range s) as Hrange. revert Hrange.
  unfold read_image_from. destruct (read_header s) as [hd s']. cbn [fst].
  intros [Hwr Hhr] Hsize. rewrite decide_False by (intros Hne; by apply Hne).
  split.
  - intros Hh Hw.
    assert (∃ Hn, height hd = Z.of_nat Hn) as [Hn Eh]
      by (exists (Z.to_nat (height hd)); lia).
    assert (∃ Wn, width hd = Z.of_nat Wn) as [Wn Ew]
      by (exists (Z.to_nat (width hd)); lia).
    rewrite Eh, Ew, !Nat2Z.id, new_grid_nat. cbn [mbind option_bind].
    unfold for_from_down. change 1 with (Z.of_nat 1) at 1.
    destruct Hn as [|Hn].
    + simpl. eexists. split; [done|]. apply (grid_replicate 0 Wn (mkPixel 0 0 0)).
    + rewrite int_sub_nat by lia.
      replace (Z.to_nat (Z.of_nat (Datatypes.S Hn - 1) + 1)) with (Datatypes.S Hn) by lia.
      destruct (read_rows_grid hd (scanline_padding (scanline_size hd))
                  (Datatypes.S Hn) Wn
                  (replicate (Datatypes.S Hn) (replicate Wn (mkPixel 0 0 0)), start hd, s'))
        as ([[image pos] s''] & Hloop & Hg); [done|apply grid_replicate|].
      rewrite Hloop. by exists image.
  - intros Hneg. unfold new_grid, vec_new.
    destruct (decide (0 <= width hd)); simpl; [|done].
    rewrite decide_False by lia. done.
Qed.

Lemma get_eof data (q : nat) :
  data !! q = None →
  get (mkStream data (Z.of_nat q) false) = (EOF, mkStream data (Z.of_nat q) true).
Proof. intros Hq. unfold get. simpl. by rewrite vec_at_nat, Hq. Qed.

Lemma stream_at_mono data q q' s : (q <= q')%nat → stream_at data q s → stream_at data q' s.
Proof. intros Hq (Hc & Hgp & Hf). split_and!; [done..|]. intros Hfb. specialize (Hf Hfb). lia. Qed.

(** The three [get]s of a pixel at offset [q]. *)
Lemma get_thrice data (q : nat) s :
  stream_at data q s →
  let s1 := get (seekg (Z.of_nat q) s) in
  let s2 := get s1.2 in
  let s3 := get s2.2 in
  stream_at data q s3.2 ∧ decoded_at data q (mkPixel s3.1 s2.1 s1.1).
Proof.
  destruct s as [d gp fb]. intros (Hc & Hgp & Hfb). simpl in Hc, Hgp, Hfb. subst d.
  destruct fb.
  - specialize (Hfb eq_refl). cbv zeta. unfold seekg, get. simpl.
    split; [split_and!; done|]. split; [lia|done].
  - cbv zeta. rewrite seekg_ok.
    destruct (data !! q) as [b|] eqn:Hb.
    + rewrite (get_ok _ _ _ Hb). cbn [fst snd].
      destruct (data !! Datatypes.S q) as [g|] eqn:Hg.
      * rewrite (get_ok _ _ _ Hg). cbn [fst snd].
        destruct (data !! Datatypes.S (Datatypes.S q)) as [r|] eqn:Hr.
        -- rewrite (get_ok _ _ _ Hr). cbn [fst snd].
           split; [split_and!; simpl; done || lia|].
           split.
           ++ intros _. unfold pixel_from. simpl.
              replace (q + 1)%nat with (Datatypes.S q) by lia.
              by replace (q + 2)%nat with (Datatypes.S (Datatypes.S q)) by lia.
           ++ intros Hlen. pose proof (lookup_lt_Some _ _ _ Hb). lia.
        -- rewrite (get_eof _ _ Hr). cbn [fst snd].
           pose proof (lookup_ge_None_1 _ _ Hr). pose proof (lookup_lt_Some _ _ _ Hb).
           split; [split_and!; simpl; try done; intros; lia|].
           split; intros; lia.
      * rewrite (get_eof _ _ Hg). cbn [fst snd].
        pose proof (lookup_ge_None_1 _ _ Hg). pose proof (lookup_lt_Some _ _ _ Hb).
        split; [split_and!; simpl; try done; intros; lia|].
        split; intros; lia.
    + rewrite (get_eof _ _ Hb). cbn [fst snd].
      pose proof (lookup_ge_None_1 _ _ Hb).
      split; [split_and!; simpl; try done; intros; lia|].
      split; [intros; lia|done].
Qed.

Lemma seekg_cur_stream_at data q padding s :
  0 <= padding → stream_at data q s → stream_at data q (seekg_cur padding s).
Proof.
  intros Hpad (Hc & Hgp & Hf). unfold seekg_cur.
  destruct (failbit s) eqn:Hfb.
  - unfold stream_at. rewrite Hfb. auto.
  - rewrite decide_True by lia. split_and!; simpl; done || lia.
Qed.

Section decode_rows.
(** The file [data] is read with a header of width [W] and [kn] bytes per
    pixel, rows of [W * kn + pn] bytes, none of the positions leaving
    [int]. *)
Variables (hd : Header) (data : list Z) (padding : Z) (H W kn pn : nat).
Hypothesis Hwidth : width hd = Z.of_nat W.
Hypothesis Hstride : bits_per_pixel hd /i 8 = Z.of_nat kn.
Hypothesis Hpadding : padding = Z.of_nat pn.

Lemma decode_row (i q0 : nat) image s :
  (i < H)%nat → grid H W image → stream_at data q0 s →
  Z.of_nat (q0 + (W * kn + pn)) <= INT_MAX →
  ∃ image' s',
    read_row hd padding (Z.of_nat i) (image, Z.of_nat q0, s)
    = Some (image', Z.of_nat (q0 + (W * kn + pn)), s')
    ∧ stream_at data (q0 + (W * kn + pn)) s' ∧ grid H W image'
    ∧ (∀ c, (c < W)%nat →
         ∃ P, pixel_at image' i c = Some P ∧ decoded_at data (q0 + c * kn) P)
    ∧ (∀ r c, r ≠ i → pixel_at image' r c = pixel_at image r c).
Proof.
  intros Hi Hg Hs Hfit. unfold read_row. rewrite Hwidth.
  destruct (for_lt_inv (λ j, columns_decoded data H W q0 kn i j image)
              (read_pixel (bits_per_pixel hd) (Z.of_nat i)) W (image, Z.of_nat q0, s))
    as ([[image' pos'] s'] & Hloop & Hpos & Hs' & Hg' & Hrow & Hrest).
  - simpl. split; [f_equal; lia|]. split; [by rewrite Nat.add_0_r|]. split; [done|].
    split; [intros; lia|done].
  - intros j [[img pos] t] Hj (-> & Ht & Himg & Hrow & Hrest).
    rewrite (read_pixel_eq _ H W) by done.
    destruct (get_thrice data (q0 + j * kn) t Ht) as [Ht' Hdec].
    eexists. split; [done|]. unfold columns_decoded. cbv beta iota.
    assert (q0 + Datatypes.S j * kn = q0 + j * kn + kn)%nat as Hnext by lia.
    assert (Z.of_nat (q0 + j * kn) + Z.of_nat kn <= INT_MAX) as Hmax by nia.
    split; [rewrite Hstride, Hnext; unwrap; lia|].
    split; [eapply stream_at_mono; [|exact Ht']; lia|].
    split; [by apply grid_set_grid|]. split.
    + intros c Hc. destruct (decide (c = j)) as [->|Hne].
      * eexists. split; [by eapply pixel_at_grid_set_eq|done].
      * rewrite pixel_at_grid_set_ne by congruence. apply Hrow. lia.
    + intros r c Hr. rewrite pixel_at_grid_set_ne by congruence. by apply Hrest.
  - rewrite Hloop. cbn [mbind option_bind].
    exists image', (seekg_cur padding s'). split_and!; try done.
    + do 3 f_equal. rewrite Hpos, Hpadding. unwrap. lia.
    + apply seekg_cur_stream_at; [lia|].
      eapply stream_at_mono; [|exact Hs']. lia.
Qed.

Lemma decode_rows (sn : nat) image s :
  grid H W image → stream_at data sn s →
  Z.of_nat (sn + H * (W * kn + pn)) <= INT_MAX →
  ∃ image' pos' s',
    for_down H (read_row hd padding) (image, Z.of_nat sn, s) = Some (image', pos', s')
    ∧ grid H W image'
    ∧ ∀ r c, (r < H)%nat → (c < W)%nat →
        ∃ P, pixel_at image' r c = Some P
             ∧ decoded_at data (sn + (H - 1 - r) * (W * kn + pn) + c * kn) P.
Proof.
  intros Hg Hs Hfit.
  destruct (for_down_inv (rows_decoded data H W sn kn (W * kn + pn)) (read_row hd padding) H
              (image, Z.of_nat sn, s))
    as ([[image' pos'] s'] & Hloop & _ & _ & Hg' & Hrows).
  - simpl. rewrite Nat.sub_diag. simpl. rewrite Nat.add_0_r.
    split; [done|]. split; [done|]. split; [done|]. intros; lia.
  - intros k [[img pos] t] Hk (-> & Ht & Himg & Hrows).
    destruct (decode_row k (sn + (H - Datatypes.S k) * (W * kn + pn)) img t)
      as (img' & t' & Hrow & Ht' & Himg' & Hnew & Hold); [done..|nia|].
    rewrite Hrow. eexists. split; [done|]. simpl.
    split; [f_equal; nia|].
    split; [eapply stream_at_mono; [|exact Ht']; nia|]. split; [done|].
    intros r c Hr HrH Hc. destruct (decide (r = k)) as [->|Hne].
    + destruct (Hnew c Hc) as (P & HP & Hdec). exists P. split; [done|].
      by replace (H - 1 - k)%nat with (H - Datatypes.S k)%nat by lia.
    + rewrite Hold by done. apply Hrows; lia || done.
  - exists image', pos', s'. split; [done|]. split; [done|].
    intros r c Hr Hc. apply Hrows; lia || done.
Qed.
End decode_rows.

(** [get_int] inside the file leaves the stream good, after the bytes
    read. *)
Lemma get_int_loop_inside data n : ∀ (q : nat) result base,
  (q + n <= length data)%nat →
  (get_int_loop n (mkStream data (Z.of_nat q) false) result base).2
  = mkStream data (Z.of_nat (q + n)) false.
Proof.
  induction n as [|n IH]; intros q result base Hq.
  - simpl. by rewrite Nat.add_0_r.
  - destruct (lookup_lt_is_Some_2 data q) as [b Hb]; [lia|].
    simpl. rewrite (get_ok _ _ _ Hb).
    rewrite IH by lia. do 2 f_equal. lia.
Qed.

Lemma get_int_inside data gp (o n : Z) :
  0 <= o → 0 <= n → o + n <= Z.of_nat (length data) →
  (get_int (mkStream data gp false) o n).2 = mkStream data (o + n) false.
Proof.
  intros Ho Hn Hlen. unfold get_int.
  rewrite <- (Z2Nat.id o) at 1 by done. rewrite seekg_ok.
  rewrite get_int_loop_inside by lia. f_equal. lia.
Qed.

Lemma read_header_inside data :
  (30 <= length data)%nat → (read_header (open data)).2 = mkStream data 30 false.
Proof.
  intros Hlen. unfold read_header, open.
  destruct (get_int _ 2 4) as [fs s1] eqn:E1.
  apply (f_equal snd) in E1. rewrite get_int_inside in E1 by lia. simpl in E1. subst s1.
  destruct (get_int _ 10 4) as [st s2] eqn:E2.
  apply (f_equal snd) in E2. rewrite get_int_inside in E2 by lia. simpl in E2. subst s2.
  destruct (get_int _ 18 4) as [w s3] eqn:E3.
  apply (f_equal snd) in E3. rewrite get_int_inside in E3 by lia. simpl in E3. subst s3.
  destruct (get_int _ 22 4) as [h s4] eqn:E4.
  apply (f_equal snd) in E4. rewrite get_int_inside in E4 by lia. simpl in E4. subst s4.
  destruct (get_int _ 28 2) as [b s5] eqn:E5.
  apply (f_equal snd) in E5. rewrite get_int_inside in E5 by lia. simpl in E5. subst s5.
  reflexivity.
Qed.

Lemma plain_header_strides hd :
  plain_header hd →
  bits_per_pixel hd /i 8 = pixel_stride hd
  ∧ scanline_size hd = width hd * pixel_stride hd
  ∧ scanline_padding (scanline_size hd) = padding_bytes (width hd * pixel_stride hd)
  ∧ 0 <= pixel_stride hd ∧ 0 <= width hd * pixel_stride hd.
Proof.
  intros (Hs & Hw & Hh & Hb & Hrow & Htot). unfold pixel_stride, scanline_size.
  assert (bits_per_pixel hd /i 8 = bits_per_pixel hd / 8) as ->.
  { unfold int_div. rewrite Z.quot_div_nonneg by lia.
    apply wrap_small. unfold INT_MAX in *. lia. }
  assert (0 <= bits_per_pixel hd / 8) as Hk by (apply Z.div_pos; lia).
  assert (0 <= width hd * (bits_per_pixel hd / 8)) as Hnn by (by apply Z.mul_nonneg_nonneg).
  assert (width hd *i (bits_per_pixel hd / 8) = width hd * (bits_per_pixel hd / 8)) as ->
    by (unwrap; done).
  split_and!; try done. by apply scanline_padding_eq.
Qed.

(** Every pixel of the grid [read_image] returns, for a file that holds
    its header and passes the size test. *)
Lemma decode_pixels data :
  let hd := (read_header (open data)).1 in
  (30 <= length data)%nat → file_size hd = expected_size hd → plain_header hd →
  ∃ image, read_image data = Some image
    ∧ grid (Z.to_nat (height hd)) (Z.to_nat (width hd)) image
    ∧ ∀ r c, (r < Z.to_nat (height hd))%nat → (c < Z.to_nat (width hd))%nat →
        ∃ P, pixel_at image r c = Some P ∧ decoded_at data (pixel_offset hd r c) P.
Proof.
  intros hd Hlen Hsize Hplain.
  pose proof (read_header_inside data Hlen) as Hstream.
  unfold read_image, read_image_from. subst hd.
  destruct (read_header (open data)) as [hd s']. cbn [fst snd] in *. subst s'.
  destruct (plain_header_strides hd Hplain) as (Hk & Hscan & Hpad & Hknn & Hrownn).
  destruct Hplain as (Hs & Hw & Hh & Hb & Hrow & Htot).
  pose proof (padding_bytes_range (width hd * pixel_stride hd)) as Hpr.
  rewrite decide_False by (intros Hne; by apply Hne).
  unfold pixel_offset, row_stride. rewrite Hpad.
  set (pad := padding_bytes (width hd * pixel_stride hd)) in *.
  assert (∃ Hn, height hd = Z.of_nat Hn) as [Hn Eh] by (exists (Z.to_nat (height hd)); lia).
  assert (∃ Wn, width hd = Z.of_nat Wn) as [Wn Ew] by (exists (Z.to_nat (width hd)); lia).
  assert (∃ kn, pixel_stride hd = Z.of_nat kn) as [kn Ek]
    by (exists (Z.to_nat (pixel_stride hd)); lia).
  assert (∃ pn, pad = Z.of_nat pn) as [pn Ep] by (exists (Z.to_nat pad); lia).
  assert (∃ sn, start hd = Z.of_nat sn) as [sn Es] by (exists (Z.to_nat (start hd)); lia).
  fold (pixel_stride hd) in Hrow, Htot.
  rewrite Eh, Ew, Ek, Ep, Es, !Nat2Z.id in *. rewrite new_grid_nat. cbn [mbind option_bind].
  unfold for_from_down. change 1 with (Z.of_nat 1) at 1.
  destruct Hn as [|Hn].
  { simpl. eexists. split; [done|]. split; [apply (grid_replicate 0 Wn (mkPixel 0 0 0))|].
    intros; lia. }
  rewrite int_sub_nat by lia.
  replace (Z.to_nat (Z.of_nat (Datatypes.S Hn - 1) + 1)) with (Datatypes.S Hn) by lia.
  destruct (decode_rows hd data (Z.of_nat pn) (Datatypes.S Hn) Wn kn pn Ew
              ltac:(by rewrite Hk) eq_refl sn
              (replicate (Datatypes.S Hn) (replicate Wn (mkPixel 0 0 0)))
              (mkStream data 30 false))
    as (image & pos' & s'' & Hloop & Hg & Hpx).
  - apply grid_replicate.
  - split_and!; simpl; done || lia.
  - nia.
  - rewrite Hloop. exists image. split; [done|]. split; [done|].
    intros r c Hr Hc. destruct (Hpx r c Hr Hc) as (P & HP & Hdec).
    exists P. split; [done|].
    match goal with |- decoded_at _ ?q _ =>
      replace q with (sn + (Datatypes.S Hn - 1 - r) * (Wn * kn + pn) + c * kn)%nat by nia end.
    done.
Qed.

(** X2.  Layout read by the decoder.  For a file that holds its header and
    passes the size test, the pixel of row [r] and column [c] is made of
    the three bytes at [start + (height - 1 - r) * row + c * (bpp / 8)],
    blue first, where [row] is the padded row length: the rows are read
    last row first, and the bytes of a pixel after the third as well as
    the padding are skipped. *)
Theorem decode_layout (data : list Z) :
  let hd := (read_header (open data)).1 in
  (30 <= length data)%nat → file_size hd = expected_size hd → plain_header hd →
  ∃ image, read_image data = Some image
    ∧ grid (Z.to_nat (height hd)) (Z.to_nat (width hd)) image
    ∧ ∀ r c, (r < Z.to_nat (height hd))%nat → (c < Z.to_nat (width hd))%nat →
        (pixel_offset hd r c + 3 <= length data)%nat →
        ∃ P, pixel_at image r c = Some P ∧ pixel_from data (pixel_offset hd r c) P.
Proof.
  intros hd Hlen Hsize Hplain.
  destruct (decode_pixels data Hlen Hsize Hplain) as (image & Himage & Hg & Hpx).
  exists image. split; [done|]. split; [done|].
  intros r c Hr Hc Hin. destruct (Hpx r c Hr Hc) as (P & HP & Hdec).
  exists P. split; [done|]. by apply Hdec.
Qed.

Lemma decode_layout_witness :
  ∃ image, read_image example_file_32 = Some image ∧ grid 1 2 image
           ∧ pixel_at image 0 1 = Some (mkPixel 60 50 40).
Proof.
  destruct (decode_layout example_file_32) as (image & Himage & Hg & Hpx).
  - simpl. lia.
  - vm_compute. reflexivity.
  - vm_compute. split_and!; discriminate.
  - exists image. split; [done|]. split; [exact Hg|].
    destruct (Hpx 0%nat 1%nat) as (P & HP & Hb & Hgr & Hr).
    + vm_compute. lia.
    + vm_compute. lia.
    + vm_compute. lia.
    + rewrite HP. destruct P as [r g b].
      vm_compute in Hb, Hgr, Hr. congruence.
Defined.

(** X3.  A truncated file is not rejected.  For a file that holds its header
    and passes the size test, every pixel whose bytes would start at or
    after the end of the file is returned with its three channels equal
    to [EOF], that is -1. *)
Theorem decode_past_end (data : list Z) :
  let hd := (read_header (open data)).1 in
  (30 <= length data)%nat → file_size hd = expected_size hd → plain_header hd →
  ∃ image, read_image data = Some image
    ∧ grid (Z.to_nat (height hd)) (Z.to_nat (width hd)) image
    ∧ ∀ r c, (r < Z.to_nat (height hd))%nat → (c < Z.to_nat (width hd))%nat →
        (length data <= pixel_offset hd r c)%nat →
        pixel_at image r c = Some eof_pixel.
Proof.
  intros hd Hlen Hsize Hplain.
  destruct (decode_pixels data Hlen Hsize Hplain) as (image & Himage & Hg & Hpx).
  exists image. split; [done|]. split; [done|].
  intros r c Hr Hc Hout. destruct (Hpx r c Hr Hc) as (P & HP & Hdec).
  rewrite HP. f_equal. by apply Hdec.
Qed.

Lemma decode_past_end_witness :
  ∃ image, read_image example_file_cut = Some image ∧ grid 1 2 image
           ∧ pixel_at image 0 1 = Some (mkPixel (-1) (-1) (-1)).
Proof.
  destruct (decode_past_end example_file_cut) as (image & Himage & Hg & Hpx).
  - simpl. lia.
  - vm_compute. reflexivity.
  - vm_compute. split_and!; discriminate.
  - exists image. split; [done|]. split; [exact Hg|].
    apply (Hpx 0%nat 1%nat); vm_compute; lia.
Defined.

Lemma decode_outcome_witness :
  ∃ image, read_image_from (open example_file_cut) = Some image ∧ grid 1 2 image.
Proof.
  apply (proj1 (decode_outcome (open example_file_cut) ltac:(vm_compute; reflexivity)));
    vm_compute; discriminate.
Defined.

(** ** Round trip of arbitrary channel values *)

Lemma to_uchar_range v : 0 <= to_uchar v <= 255.
Proof. unfold to_uchar. pose proof (Z.mod_pos_bound v 256). lia. Qed.

Lemma pixel_bytes_wrap p : pixel_bytes (wrap_channels p) = pixel_bytes p.
Proof.
  unfold pixel_bytes, wrap_channels. simpl.
  by rewrite !(to_uchar_byte (to_uchar _)) by apply to_uchar_range.
Qed.

Lemma row_bytes_wrap pad (row : list Pixel) :
  row_bytes pad (fmap (M:=list) wrap_channels row) = row_bytes pad row.
Proof.
  unfold row_bytes. f_equal.
  induction row as [|p row IH]; [done|].
  rewrite fmap_cons, !bind_cons, IH. by rewrite pixel_bytes_wrap.
Qed.

Lemma encoded_wrap H W (image : Image) :
  encoded H W (wrap_grid image) = encoded H W image.
Proof.
  unfold encoded, wrap_grid. do 2 f_equal.
  induction image as [|row image IH]; [done|].
  rewrite fmap_cons, !reverse_cons, !bind_app, IH. f_equal.
  simpl. by rewrite row_bytes_wrap.
Qed.

Lemma grid_wrap H W (image : Image) : grid H W image → grid H W (wrap_grid image).
Proof.
  intros [Hl Hall]. unfold wrap_grid. split; [by rewrite length_fmap|].
  apply Forall_fmap. eapply Forall_impl; [exact Hall|].
  intros row Hrow. simpl. by rewrite length_fmap.
Qed.

(** X5.  Writing a grid and reading the file back gives the grid with every
    channel reduced modulo 256, whatever the channel values. *)
Theorem round_trip_wraps_channels (H W : nat) (image : Image) :
  grid H W image → (0 < H)%nat → int_sized H W → encoded_size H W <= INT_MAX →
  ∃ bytes, write_image image = Some bytes
           ∧ read_image bytes = Some (wrap_grid image).
Proof.
  intros Hg Hpos Hsz Hsize. exists (encoded H W image). split.
  - by apply write_image_eq.
  - rewrite <- encoded_wrap. apply read_image_encoded; try done.
    + by apply grid_wrap.
    + intros r c p Hp. unfold pixel_at, wrap_grid in Hp.
      rewrite list_lookup_fmap in Hp.
      destruct (image !! r) as [row|]; simpl in Hp; [|done].
      rewrite list_lookup_fmap in Hp.
      destruct (row !! c) as [p0|]; simpl in Hp; [|done].
      inversion Hp. unfold in_byte_range, wrap_channels. simpl.
      split_and!; apply to_uchar_range.
Qed.

Lemma round_trip_wraps_channels_witness :
  ∃ bytes, write_image [[mkPixel 300 (-1) 256; mkPixel 0 255 7]] = Some bytes
           ∧ read_image bytes = Some [[mkPixel 44 255 0; mkPixel 0 255 7]].
Proof.
  apply (round_trip_wraps_channels 1 2 [[mkPixel 300 (-1) 256; mkPixel 0 255 7]]).
  - split; [reflexivity|repeat constructor].
  - lia.
  - split; vm_compute; discriminate.
  - vm_compute. discriminate.
Defined.

(** ** Files that cannot be read *)

(** X4.  A stream that could not be opened, and a file of at most two bytes,
    decode to the empty grid: every header field is then made of [EOF]s
    and the size test fails. *)
Theorem decode_unreadable (data : list Z) (gp : Z) :
  read_image_from (mkStream data gp true) = Some []
  ∧ ((length data <= 2)%nat → read_image data = Some []).
Proof.
  split; [vm_compute; reflexivity|].
  intros Hlen. unfold read_image, read_image_from, read_header, open.
  assert (get_int (mkStream data 0 false) 2 4 = (-16843009, mkStream data 2 true)) as ->.
  { unfold get_int. change 2 with (Z.of_nat 2) at 1. rewrite seekg_ok.
    change (Z.to_nat 4) with 4%nat. cbn [get_int_loop].
    rewrite get_eof by (apply lookup_ge_None_2; lia). reflexivity. }
  vm_compute. reflexivity.
Qed.

Lemma decode_unreadable_witness : read_image [66; 77] = Some [].
Proof. apply (proj2 (decode_unreadable [66; 77] 0)). simpl. lia. Defined.

(** ** Header fields: [set_bytes] and [get_int] *)

Lemma set_bytes_loop_spec n : ∀ (i : nat) arr (o : nat) v,
  (o + i + n <= length arr)%nat → Z.of_nat (o + i + n) * 8 <= INT_MAX →
  ∃ arr', set_bytes_loop n (Z.of_nat i) arr (Z.of_nat o) v = Some arr'
    ∧ length arr' = length arr
    ∧ (∀ j, (j < o + i ∨ o + i + n <= j)%nat → arr' !! j = arr !! j)
    ∧ (∀ k, (i <= k < i + n)%nat → arr' !! (o + k)%nat = Some (le_byte v (Z.of_nat k))).
Proof.
  induction n as [|n IH]; intros i arr o v Hlen Hmax.
  - exists arr. split; [done|]. split; [done|]. split; [done|]. intros; lia.
  - assert (Z.of_nat o +i Z.of_nat i = Z.of_nat (o + i)) as Hoff by (unwrap; lia).
    assert (Z.of_nat i *i 8 = 8 * Z.of_nat i) as Hsh by (unwrap; lia).
    destruct (lookup_lt_is_Some_2 arr (o + i)) as [x Hx]; [lia|].
    cbn [set_bytes_loop]. rewrite Hoff, Hsh, vec_at_nat, Hx, Nat2Z.id.
    cbn [mbind option_bind].
    replace (Z.of_nat i + 1) with (Z.of_nat (Datatypes.S i)) by lia.
    destruct (IH (Datatypes.S i) (<[(o + i)%nat := to_uchar (Z.shiftr v (8 * Z.of_nat i))]> arr) o v)
      as (arr' & Hset & Hl & Hout & Hin); [rewrite length_insert; lia|lia|].
    exists arr'. split; [done|]. rewrite length_insert in Hl. split; [done|]. split.
    + intros j Hj. rewrite Hout by lia. apply list_lookup_insert_ne. lia.
    + intros k Hk. destruct (decide (k = i)) as [->|Hne].
      * rewrite Hout by lia. unfold le_byte. apply list_lookup_insert_eq. lia.
      * apply Hin. lia.
Qed.

Lemma set_bytes_spec arr (o n : nat) v :
  (o + n <= length arr)%nat → Z.of_nat (o + n) * 8 <= INT_MAX →
  ∃ arr', set_bytes arr (Z.of_nat o) (Z.of_nat n) v = Some arr'
    ∧ length arr' = length arr
    ∧ (∀ j, (j < o ∨ o + n <= j)%nat → arr' !! j = arr !! j)
    ∧ (∀ k, (k < n)%nat → arr' !! (o + k)%nat = Some (le_byte v (Z.of_nat k))).
Proof.
  intros Hlen Hmax. unfold set_bytes. rewrite Nat2Z.id.
  destruct (set_bytes_loop_spec n 0 arr o v) as (arr' & Hset & Hl & Hout & Hin);
    [lia|lia|].
  exists arr'. split; [done|]. split; [done|]. split.
  - intros j Hj. apply Hout. lia.
  - intros k Hk. apply Hin. lia.
Qed.

(** X7.  [set_bytes] stores the [bytes] low bytes of [value] at [offset],
    least significant first, and touches nothing else: the array keeps
    its length and its other bytes. *)
Theorem set_bytes_in_place (arr : list Z) (o n : nat) (v : Z) :
  (o + n <= length arr)%nat → (n <= 4)%nat → Z.of_nat (o + n) * 8 <= INT_MAX →
  ∃ arr', set_bytes arr (Z.of_nat o) (Z.of_nat n) v = Some arr'
    ∧ length arr' = length arr
    ∧ (∀ j, (j < o ∨ o + n <= j)%nat → arr' !! j = arr !! j)
    ∧ (∀ k, (k < n)%nat → arr' !! (o + k)%nat = Some (Z.shiftr v (8 * Z.of_nat k) mod 256)).
Proof. intros Hlen _ Hmax. by apply set_bytes_spec. Qed.

Lemma set_bytes_in_place_witness :
  ∃ arr', set_bytes [9; 9; 9; 9; 9; 9] 1 4 2835 = Some arr'
          ∧ length arr' = 6%nat ∧ arr' !! 0%nat = Some 9 ∧ arr' !! 5%nat = Some 9.
Proof.
  destruct (set_bytes_in_place [9; 9; 9; 9; 9; 9] 1 4 2835
              ltac:(simpl; lia) ltac:(lia) ltac:(vm_compute; discriminate))
    as (arr' & Hset & Hl & Hout & Hin).
  exists arr'. split; [exact Hset|]. split; [exact Hl|]. split.
  - rewrite Hout by lia. reflexivity.
  - rewrite Hout by lia. reflexivity.
Defined.

Ltac le_bytes_arith :=
  unfold le_byte, to_uchar; rewrite ?Z.shiftr_div_pow2 by lia;
  change (2 ^ (8 * Z.of_nat 0)) with 1; change (2 ^ (8 * Z.of_nat 1)) with 256;
  change (2 ^ (8 * Z.of_nat 2)) with 65536; change (2 ^ (8 * Z.of_nat 3)) with 16777216;
  change (1 *i 256 *i 256 *i 256) with 16777216;
  change (1 *i 256 *i 256) with 65536; change (1 *i 256) with 256;
  match goal with v : Z |- _ =>
    replace (v / 65536) with (v / 256 / 256) by (rewrite Z.div_div by lia; done);
    replace (v / 16777216) with (v / 256 / 256 / 256) by (rewrite !Z.div_div by lia; done)
  end;
  rewrite ?Z.div_1_r; unwrap; unfold INT_MAX in *; lia.

(** Reading back [n] bytes written by [set_bytes]. *)
Lemma get_int_le_bytes data gp (o n : nat) v :
  (1 <= n <= 4)%nat → 0 <= v < 256 ^ Z.of_nat n → v <= INT_MAX →
  (∀ k, (k < n)%nat → data !! (o + k)%nat = Some (le_byte v (Z.of_nat k))) →
  get_int (mkStream data gp false) (Z.of_nat o) (Z.of_nat n)
  = (v, mkStream data (Z.of_nat (o + n)) false).
Proof.
  intros Hn Hv Hmax Hin. unfold get_int. rewrite seekg_ok, Nat2Z.id.
  pose proof (Hin 0%nat) as H0. rewrite Nat.add_0_r in H0.
  pose proof (Hin 1%nat) as H1. pose proof (Hin 2%nat) as H2. pose proof (Hin 3%nat) as H3.
  destruct n as [|[|[|[|[|n]]]]]; try lia; cbn [get_int_loop].
  - rewrite (get_ok _ _ _ (H0 ltac:(lia))).
    replace (Datatypes.S o) with (o + 1)%nat by lia. f_equal.
    change (256 ^ Z.of_nat 1) with 256 in Hv. revert Hv Hmax. clear. intros. le_bytes_arith.
  - rewrite (get_ok _ _ _ (H0 ltac:(lia))).
    replace (Datatypes.S o) with (o + 1)%nat by lia. rewrite (get_ok _ _ _ (H1 ltac:(lia))).
    replace (Datatypes.S (o + 1)) with (o + 2)%nat by lia. f_equal.
    change (256 ^ Z.of_nat 2) with 65536 in Hv. revert Hv Hmax. clear. intros. le_bytes_arith.
  - rewrite (get_ok _ _ _ (H0 ltac:(lia))).
    replace (Datatypes.S o) with (o + 1)%nat by lia. rewrite (get_ok _ _ _ (H1 ltac:(lia))).
    replace (Datatypes.S (o + 1)) with (o + 2)%nat by lia. rewrite (get_ok _ _ _ (H2 ltac:(lia))).
    replace (Datatypes.S (o + 2)) with (o + 3)%nat by lia. f_equal.
    change (256 ^ Z.of_nat 3) with 16777216 in Hv. revert Hv Hmax. clear. intros. le_bytes_arith.
  - rewrite (get_ok _ _ _ (H0 ltac:(lia))).
    replace (Datatypes.S o) with (o + 1)%nat by lia. rewrite (get_ok _ _ _ (H1 ltac:(lia))).
    replace (Datatypes.S (o + 1)) with (o + 2)%nat by lia. rewrite (get_ok _ _ _ (H2 ltac:(lia))).
    replace (Datatypes.S (o + 2)) with (o + 3)%nat by lia. rewrite (get_ok _ _ _ (H3 ltac:(lia))).
    replace (Datatypes.S (o + 3)) with (o + 4)%nat by lia. f_equal.
    change (256 ^ Z.of_nat 4) with 4294967296 in Hv. revert Hv Hmax. clear. intros. le_bytes_arith.
Qed.

(** X8.  A value written by [set_bytes] on [n] bytes is read back by
    [get_int], when it fits in [n] bytes and is not negative. *)
Theorem header_field_round_trip (arr : list Z) (o n : nat) (v : Z) :
  (o + n <= length arr)%nat → (1 <= n <= 4)%nat →
  0 <= v < 256 ^ Z.of_nat n → v <= INT_MAX → Z.of_nat (o + n) * 8 <= INT_MAX →
  ∃ arr', set_bytes arr (Z.of_nat o) (Z.of_nat n) v = Some arr'
          ∧ get_int (open arr') (Z.of_nat o) (Z.of_nat n)
            = (v, mkStream arr' (Z.of_nat (o + n)) false).
Proof.
  intros Hlen Hn Hv Hmax Hoff.
  destruct (set_bytes_spec arr o n v Hlen Hoff) as (arr' & Hset & _ & _ & Hin).
  exists arr'. split; [done|]. by apply get_int_le_bytes.
Qed.

Lemma header_field_round_trip_witness :
  ∃ arr', set_bytes [0; 0; 0; 0; 0; 0] 2 4 2147483647 = Some arr'
          ∧ get_int (open arr') 2 4 = (2147483647, mkStream arr' 6 false).
Proof.
  apply (header_field_round_trip [0; 0; 0; 0; 0; 0] 2 4 2147483647).
  - simpl. lia.
  - lia.
  - split; [lia|]. vm_compute. reflexivity.
  - vm_compute. discriminate.
  - vm_compute. discriminate.
Defined.

(** X9.  [get_int] assembles the bytes least significant first: four bytes
    give [b0 + 256 b1 + 65536 b2 + 16777216 b3] when the last byte is
    below 128, two bytes give [b0 + 256 b1]. *)
Theorem get_int_little_endian (data : list Z) (gp : Z) (o : nat) (b0 b1 b2 b3 : Z) :
  data !! o = Some b0 → data !! (o + 1)%nat = Some b1 →
  0 <= b0 <= 255 → 0 <= b1 <= 255 →
  (get_int (mkStream data gp false) (Z.of_nat o) 2).1 = b0 + 256 * b1
  ∧ (data !! (o + 2)%nat = Some b2 → data !! (o + 3)%nat = Some b3 →
     0 <= b2 <= 255 → 0 <= b3 <= 127 →
     (get_int (mkStream data gp false) (Z.of_nat o) 4).1
     = b0 + 256 * b1 + 65536 * b2 + 16777216 * b3).
Proof.
  intros H0 H1 R0 R1. split.
  - rewrite (get_int_2 _ _ _ _ _ H0 H1). simpl.
    change (1 *i 256) with 256. unwrap. lia.
  - intros H2 H3 R2 R3. unfold get_int. rewrite seekg_ok.
    change (Z.to_nat 4) with 4%nat. cbn [get_int_loop].
    rewrite (get_ok _ _ _ H0).
    replace (Datatypes.S o) with (o + 1)%nat by lia. rewrite (get_ok _ _ _ H1).
    replace (Datatypes.S (o + 1)) with (o + 2)%nat by lia. rewrite (get_ok _ _ _ H2).
    replace (Datatypes.S (o + 2)) with (o + 3)%nat by lia. rewrite (get_ok _ _ _ H3).
    simpl. change (1 *i 256 *i 256 *i 256) with 16777216.
    change (1 *i 256 *i 256) with 65536. change (1 *i 256) with 256.
    unwrap. lia.
Qed.

Lemma get_int_little_endian_witness :
  (get_int (open example_file_32) 28 2).1 = 32 + 256 * 0
  ∧ (get_int (open example_file_32) 38 4).1 = 19 + 256 * 11 + 65536 * 0 + 16777216 * 0.
Proof.
  destruct (get_int_little_endian example_file_32 0 28 32 0 0 0 eq_refl eq_refl
              ltac:(lia) ltac:(lia)) as [H2 _].
  destruct (get_int_little_endian example_file_32 0 38 19 11 0 0 eq_refl eq_refl
              ltac:(lia) ltac:(lia)) as [_ H4].
  split; [exact H2|]. apply H4; reflexivity || lia.
Defined.

(** ** The file written by [write_image] *)

Lemma length_encoded H W image :
  grid H W image →
  length (encoded H W image) = (54 + H * (W * 3 + Z.to_nat (file_padding W)))%nat.
Proof.
  intros [Hl Hall]. unfold encoded. rewrite !length_app.
  change (length (bmp_header_bytes _)) with 14%nat.
  change (length (dib_header_bytes _ _ _)) with 40%nat.
  rewrite (length_bind_chunks _ (W * 3 + Z.to_nat (file_padding W))).
  - rewrite length_reverse, Hl. lia.
  - apply Forall_reverse. eapply Forall_impl; [exact Hall|].
    intros row Hrow. simpl. by rewrite length_row_bytes, Hrow.
Qed.

Lemma file_padding_aligns W :
  Z.of_nat W * 3 <= INT_MAX → (Z.of_nat W * 3 + file_padding W) mod 4 = 0.
Proof.
  intros HW. unfold file_padding, padding_bytes, int_rem.
  assert (Z.of_nat W *i 3 = Z.of_nat W * 3) as -> by (unwrap; done).
  rewrite (Z.rem_mod_nonneg (Z.of_nat W * 3)) by lia.
  assert (4 -i (Z.of_nat W * 3) mod 4 = 4 - (Z.of_nat W * 3) mod 4) as -> by (unwrap; lia).
  rewrite Z.rem_mod_nonneg by lia. lia.
Qed.

Lemma encoded_field H W image (o : nat) v :
  (o + 4 <= 54)%nat → 0 <= v <= INT_MAX →
  (∀ k, (k < 4)%nat →
     (bmp_header_bytes (array_size H W)
      ++ dib_header_bytes (Z.of_nat W) (Z.of_nat H) (array_size H W)) !! (o + k)%nat
     = Some (le_byte v (Z.of_nat k))) →
  (get_int (open (encoded H W image)) (Z.of_nat o) 4).1 = v.
Proof.
  intros Ho Hv Hin. unfold open.
  rewrite (get_int_le_bytes _ _ o 4 v); [done|lia|unfold INT_MAX in *; lia|lia|].
  intros k Hk. rewrite encoded_header_lookup by lia. by apply Hin.
Qed.

(** X10.  The header [write_image] writes.  The file starts with "BM"; its
    size field is the number of bytes written, 54 plus [height] padded
    rows; the pixel array starts at 54; the information header gives
    its own size 40, the width, the height, one plane, 24 bits per
    pixel, no compression, the size of the pixel array, 2835 pixels per
    metre both ways and no palette. *)
Theorem written_header (H W : nat) (image : Image) :
  grid H W image → (0 < H)%nat → int_sized H W → encoded_size H W <= INT_MAX →
  ∃ bytes, write_image image = Some bytes
    ∧ take 2 bytes = [66; 77]
    ∧ Z.of_nat (length bytes) = 54 + (Z.of_nat W * 3 + file_padding W) * Z.of_nat H
    ∧ (Z.of_nat W * 3 + file_padding W) mod 4 = 0
    ∧ (read_header (open bytes)).1
      = mkHeader (Z.of_nat (length bytes)) 54 (Z.of_nat W) (Z.of_nat H) 24
    ∧ (get_int (open bytes) 6 4).1 = 0
    ∧ (get_int (open bytes) 14 4).1 = 40
    ∧ (get_int (open bytes) 26 2).1 = 1
    ∧ (get_int (open bytes) 30 4).1 = 0
    ∧ (get_int (open bytes) 34 4).1 = Z.of_nat (length bytes) - 54
    ∧ (get_int (open bytes) 38 4).1 = 2835
    ∧ (get_int (open bytes) 42 4).1 = 2835
    ∧ (get_int (open bytes) 46 4).1 = 0
    ∧ (get_int (open bytes) 50 4).1 = 0.
Proof.
  intros Hg Hpos Hsz Hsize.
  destruct (array_size_exact H W Hpos Hsz Hsize) as [Harr HW3].
  pose proof (padding_bytes_range (Z.of_nat W *i 3)) as Hpad. fold (file_padding W) in Hpad.
  assert (Z.of_nat (length (encoded H W image)) = encoded_size H W) as Hlen.
  { rewrite (length_encoded H W image Hg). unfold encoded_size. lia. }
  assert (0 <= array_size H W <= INT_MAX) as Harange.
  { rewrite Harr. unfold encoded_size in Hsize. nia. }
  exists (encoded H W image). split; [by apply write_image_eq|].
  split; [reflexivity|]. split; [by rewrite Hlen|].
  split; [apply file_padding_aligns; unfold encoded_size in Hsize; nia|].
  split; [by rewrite (read_header_encoded H W image Hpos Hsz Hsize), Hlen|].
  assert (∀ o v, (o + 4 <= 54)%nat → 0 <= v <= INT_MAX →
            (∀ k, (k < 4)%nat →
               (bmp_header_bytes (array_size H W)
                ++ dib_header_bytes (Z.of_nat W) (Z.of_nat H) (array_size H W)) !! (o + k)%nat
               = Some (le_byte v (Z.of_nat k))) →
            (get_int (open (encoded H W image)) (Z.of_nat o) 4).1 = v) as Hfield
    by (intros; by apply encoded_field).
  split_and!.
  - apply (Hfield 6%nat 0); [lia|unfold INT_MAX; lia|].
    intros [|[|[|[|k]]]] Hk; try lia; reflexivity.
  - apply (Hfield 14%nat 40); [lia|unfold INT_MAX; lia|].
    intros [|[|[|[|k]]]] Hk; try lia; reflexivity.
  - unfold open. change 26 with (Z.of_nat 26).
    rewrite (get_int_2 _ _ 26 1 0); [reflexivity|..];
      rewrite encoded_header_lookup by lia; reflexivity.
  - apply (Hfield 30%nat 0); [lia|unfold INT_MAX; lia|].
    intros [|[|[|[|k]]]] Hk; try lia; reflexivity.
  - rewrite Hlen. unfold encoded_size. rewrite <- Harr.
    replace (54 + array_size H W - 54) with (array_size H W) by lia.
    apply (Hfield 34%nat (array_size H W)); [lia|done|].
    intros [|[|[|[|k]]]] Hk; try lia; reflexivity.
  - apply (Hfield 38%nat 2835); [lia|unfold INT_MAX; lia|].
    intros [|[|[|[|k]]]] Hk; try lia; reflexivity.
  - apply (Hfield 42%nat 2835); [lia|unfold INT_MAX; lia|].
    intros [|[|[|[|k]]]] Hk; try lia; reflexivity.
  - apply (Hfield 46%nat 0); [lia|unfold INT_MAX; lia|].
    intros [|[|[|[|k]]]] Hk; try lia; reflexivity.
  - apply (Hfield 50%nat 0); [lia|unfold INT_MAX; lia|].
    intros [|[|[|[|k]]]] Hk; try lia; reflexivity.
Qed.

Lemma written_header_witness :
  ∃ bytes, write_image example_grid = Some bytes
           ∧ Z.of_nat (length bytes) = 78
           ∧ (get_int (open bytes) 34 4).1 = 24.
Proof.
  destruct (written_header 2 3 example_grid
              ltac:(split; [reflexivity|repeat constructor]) ltac:(lia)
              ltac:(split; vm_compute; discriminate) ltac:(vm_compute; discriminate))
    as (bytes & Hbytes & _ & Hlen & _ & _ & _ & _ & _ & _ & Harr & _).
  exists bytes. split; [exact Hbytes|]. split; [exact Hlen|].
  rewrite Harr, Hlen. reflexivity.
Defined.

Lemma row_bytes_padding pad (row : list Pixel) (t : nat) :
  (t < pad)%nat → row_bytes pad row !! (length row * 3 + t)%nat = Some 0.
Proof.
  intros Ht. unfold row_bytes.
  assert (length (row ≫= pixel_bytes) = (length row * 3)%nat) as Hl.
  { rewrite (length_bind_chunks pixel_bytes 3); [done|]. by apply Forall_forall. }
  rewrite lookup_app_r by lia. rewrite Hl.
  replace (length row * 3 + t - length row * 3)%nat with t by lia.
  by apply lookup_replicate_2.
Qed.

(** X11.  The rows [write_image] writes are padded with zero bytes: after the
    [3 * width] pixel bytes of every row come [padding_bytes] bytes 0. *)
Theorem written_padding_is_zero (H W : nat) (image : Image) :
  grid H W image → (0 < H)%nat → int_sized H W →
  ∃ bytes, write_image image = Some bytes
    ∧ ∀ r t, (r < H)%nat → (t < Z.to_nat (file_padding W))%nat →
        bytes !! (54 + (H - 1 - r) * (W * 3 + Z.to_nat (file_padding W)) + W * 3 + t)%nat
        = Some 0.
Proof.
  intros Hg Hpos Hsz. exists (encoded H W image). split; [by apply write_image_eq|].
  intros r t Hr Ht. destruct Hg as [HH Hall].
  destruct (lookup_lt_is_Some_2 image r) as [row Hrow]; [lia|].
  pose proof (proj1 (Forall_lookup _ _) Hall r row Hrow) as Hlen. simpl in Hlen.
  unfold encoded. rewrite app_assoc.
  set (header := bmp_header_bytes _ ++ dib_header_bytes _ _ _).
  assert (length header = 54%nat) as Hh by reflexivity.
  rewrite lookup_app_r by nia. rewrite Hh.
  match goal with |- _ !! ?i = _ =>
    replace i with ((H - 1 - r) * (W * 3 + Z.to_nat (file_padding W)) + (W * 3 + t))%nat
      by nia end.
  rewrite (lookup_bind_chunks (row_bytes (Z.to_nat (file_padding W)))
             (W * 3 + Z.to_nat (file_padding W)) _ _ _ row).
  - pose proof (row_bytes_padding (Z.to_nat (file_padding W)) row t Ht) as Hz.
    by rewrite Hlen in Hz.
  - apply Forall_reverse. eapply Forall_impl; [exact Hall|].
    intros y Hy. simpl. rewrite length_row_bytes. by rewrite Hy.
  - rewrite reverse_lookup by lia. rewrite <- Hrow. f_equal. lia.
  - lia.
Qed.

Lemma written_padding_is_zero_witness :
  ∃ bytes, write_image example_grid = Some bytes ∧ bytes !! 65%nat = Some 0.
Proof.
  destruct (written_padding_is_zero 2 3 example_grid
              ltac:(split; [reflexivity|repeat constructor]) ltac:(lia)
              ltac:(split; vm_compute; discriminate))
    as (bytes & Hbytes & Hpad).
  exists bytes. split; [exact Hbytes|].
  apply (Hpad 1%nat 2%nat); vm_compute; lia.
Defined.

(** * Transforms with a scaling factor *)

Section scaling_properties.
Variables scaled lightened : Z → Z.

Lemma process_2_pointwise H W image :
  grid H W image → (0 < H)%nat → int_sized H W →
  ∃ out, process_2 scaled lightened image = Some out ∧ grid H W out
         ∧ ∀ r c p, pixel_at image r c = Some p →
             pixel_at out r c = Some (clarendon_2 scaled lightened (red p) (green p) (blue p)).
Proof.
  intros Hg Hpos Hsz.
  destruct (grid_sizes _ _ _ Hg Hpos Hsz) as (row0 & Hrow0 & HW & HH).
  unfold process_2. rewrite Hrow0. simpl. rewrite HW, HH, new_grid_nat. simpl.
  apply (pointwise_fill H W image
           (λ p, clarendon_2 scaled lightened (red p) (green p) (blue p))); [done|].
  intros r c p new_image Hp. rewrite load_nat, Hp. done.
Qed.

Lemma process_8_pointwise H W image :
  grid H W image → (0 < H)%nat → int_sized H W →
  ∃ out, process_8 lightened image = Some out ∧ grid H W out
         ∧ ∀ r c p, pixel_at image r c = Some p →
             pixel_at out r c
             = Some (mkPixel (lightened (255 -i red p)) (lightened (255 -i green p))
                       (lightened (255 -i blue p))).
Proof.
  intros Hg Hpos Hsz.
  destruct (grid_sizes _ _ _ Hg Hpos Hsz) as (row0 & Hrow0 & HW & HH).
  unfold process_8. rewrite Hrow0. simpl. rewrite HW, HH, new_grid_nat. simpl.
  apply (pointwise_fill H W image
           (λ p, mkPixel (lightened (255 -i red p)) (lightened (255 -i green p))
                   (lightened (255 -i blue p)))); [done|].
  intros r c p new_image Hp. rewrite load_nat, Hp. done.
Qed.

Lemma process_9_pointwise H W image :
  grid H W image → (0 < H)%nat → int_sized H W →
  ∃ out, process_9 scaled image = Some out ∧ grid H W out
         ∧ ∀ r c p, pixel_at image r c = Some p →
             pixel_at out r c
             = Some (mkPixel (scaled (red p)) (scaled (green p)) (scaled (blue p))).
Proof.
  intros Hg Hpos Hsz.
  destruct (grid_sizes _ _ _ Hg Hpos Hsz) as (row0 & Hrow0 & HW & HH).
  unfold process_9. rewrite Hrow0. simpl. rewrite HW, HH, new_grid_nat. simpl.
  apply (pointwise_fill H W image
           (λ p, mkPixel (scaled (red p)) (scaled (green p)) (scaled (blue p)))); [done|].
  intros r c p new_image Hp. rewrite load_nat, Hp. done.
Qed.

(** X22.  Clarendon treats a pixel after the integer quotient
    [(red + green + blue) / 3]: at 170 or more as Lighten does, below 90
    as Darken does, with the same scaling factor, and in between it
    copies the pixel unchanged.  All three return a grid of the
    dimensions of the input. *)
Theorem clarendon_by_cases (H W : nat) (image : Image) :
  grid H W image → (0 < H)%nat → int_sized H W →
  ∃ out2 out8 out9,
    process_2 scaled lightened image = Some out2 ∧ grid H W out2
    ∧ process_8 lightened image = Some out8 ∧ grid H W out8
    ∧ process_9 scaled image = Some out9 ∧ grid H W out9
    ∧ ∀ r c p, pixel_at image r c = Some p →
        let average_value := (red p +i green p +i blue p) /i 3 in
        (170 <= average_value → pixel_at out2 r c = pixel_at out8 r c)
        ∧ (average_value < 90 → pixel_at out2 r c = pixel_at out9 r c)
        ∧ (90 <= average_value < 170 → pixel_at out2 r c = Some p).
Proof.
  intros Hg Hpos Hsz.
  destruct (process_2_pointwise H W image Hg Hpos Hsz) as (out2 & E2 & G2 & P2).
  destruct (process_8_pointwise H W image Hg Hpos Hsz) as (out8 & E8 & G8 & P8).
  destruct (process_9_pointwise H W image Hg Hpos Hsz) as (out9 & E9 & G9 & P9).
  exists out2, out8, out9. split_and!; try done.
  intros r c p Hp. cbv zeta.
  rewrite (P2 r c p Hp), (P8 r c p Hp), (P9 r c p Hp). unfold clarendon_2. cbv zeta.
  split_and!; intros Havg; repeat case_decide; try lia; try done.
  by destruct p.
Qed.
End scaling_properties.

Lemma clarendon_by_cases_witness :
  ∃ out2, process_2 (λ n, n / 2) (λ n, 255 - n / 2) example_grid = Some out2
          ∧ pixel_at out2 1 2 = Some (mkPixel 200 17 255)
          ∧ pixel_at out2 0 0 = Some (mkPixel 0 1 1).
Proof.
  destruct (clarendon_by_cases (λ n, n / 2) (λ n, 255 - n / 2) 2 3 example_grid
              ltac:(split; [reflexivity|repeat constructor]) ltac:(lia)
              ltac:(split; vm_compute; discriminate))
    as (out2 & out8 & out9 & E2 & _ & E8 & _ & E9 & _ & Hpx).
  exists out2. split; [exact E2|]. split.
  - destruct (Hpx 1%nat 2%nat (mkPixel 200 17 255) eq_refl) as (_ & _ & Hmid).
    apply Hmid. vm_compute. split; [discriminate|reflexivity].
  - destruct (Hpx 0%nat 0%nat (mkPixel 1 2 3) eq_refl) as (_ & Hlo & _).
    rewrite Hlo by (vm_compute; reflexivity).
    vm_compute in E9. inversion E9. reflexivity.
Defined.

(** * The codec and the transforms together *)

Lemma round_trip_of_bytes H W out :
  grid H W out → (0 < H)%nat → int_sized H W → encoded_size H W <= INT_MAX →
  (∀ r c q, pixel_at out r c = Some q → in_byte_range q) →
  ∃ bytes, write_image out = Some bytes ∧ read_image bytes = Some out.
Proof.
  intros Hg Hpos Hsz Hsize Hb. exists (encoded H W out).
  split; [by apply write_image_eq|by apply read_image_encoded].
Qed.

(** X23.  The output of HighContrast and of Posterize holds only the values 0
    and 255, whatever the channel values of the input, so writing it to
    a file and reading the file gives it back unchanged. *)
Theorem classified_output_round_trip (H W : nat) (image : Image) :
  grid H W image → (0 < H)%nat → int_sized H W → encoded_size H W <= INT_MAX →
  (∃ out bytes, process_7 image = Some out ∧ byte_grid out
                ∧ write_image out = Some bytes ∧ read_image bytes = Some out)
  ∧ (∃ out bytes, process_10 image = Some out ∧ byte_grid out
                  ∧ write_image out = Some bytes ∧ read_image bytes = Some out).
Proof.
  intros Hg Hpos Hsz Hsize.
  assert (∀ (f : Pixel → Pixel) out,
            (∀ p, in_byte_range (f p)) → grid H W out →
            (∀ r c p, pixel_at image r c = Some p → pixel_at out r c = Some (f p)) →
            ∀ r c q, pixel_at out r c = Some q → in_byte_range q) as Hrange.
  { intros f out Hf Hgo Hpx r c q Hq.
    destruct (pixel_at_inv _ _ _ _ _ _ Hgo Hq) as [Hr Hc].
    destruct (grid_pixel _ _ _ _ _ Hg Hr Hc) as [p Hp].
    rewrite (Hpx r c p Hp) in Hq. inversion Hq. apply Hf. }
  assert (∀ out : Image, (∀ r c q, pixel_at out r c = Some q → in_byte_range q) →
            byte_grid out) as Hall.
  { intros out Hb. apply Forall_lookup. intros r row Hrow.
    apply Forall_lookup. intros c q Hq. apply (Hb r c q).
    unfold pixel_at. by rewrite Hrow. }
  split.
  - destruct (process_7_pointwise H W image Hg Hpos Hsz) as (out & Hout & Hgo & Hpx).
    assert (∀ r c q, pixel_at out r c = Some q → in_byte_range q) as Hb.
    { apply (Hrange (λ p, contrast_7 (red p) (green p) (blue p))); [|done..].
      intros p. unfold contrast_7. cbv zeta. case_decide; unfold in_byte_range; simpl; lia. }
    destruct (round_trip_of_bytes H W out Hgo Hpos Hsz Hsize Hb) as (bytes & Hw & Hr).
    exists out, bytes. split_and!; try done. by apply Hall.
  - destruct (process_10_pointwise H W image Hg Hpos Hsz) as (out & Hout & Hgo & Hpx).
    assert (∀ r c q, pixel_at out r c = Some q → in_byte_range q) as Hb.
    { apply (Hrange (λ p, posterize_10 (red p) (green p) (blue p))); [|done..].
      intros p. unfold posterize_10. cbv zeta.
      repeat case_decide; unfold in_byte_range; simpl; lia. }
    destruct (round_trip_of_bytes H W out Hgo Hpos Hsz Hsize Hb) as (bytes & Hw & Hr).
    exists out, bytes. split_and!; try done. by apply Hall.
Qed.

Lemma classified_output_round_trip_witness :
  ∃ out bytes, process_7 [[mkPixel 300 (-40) 1000; mkPixel 5 5 5]] = Some out
               ∧ byte_grid out
               ∧ write_image out = Some bytes ∧ read_image bytes = Some out.
Proof.
  apply (classified_output_round_trip 1 2 [[mkPixel 300 (-40) 1000; mkPixel 5 5 5]]).
  - split; [reflexivity|repeat constructor].
  - lia.
  - split; vm_compute; discriminate.
  - vm_compute. discriminate.
Defined.

(** X24.  The empty grid that [read_image] returns for a rejected file is
    not a valid input of what follows: the encoder and every transform
    start by reading [image[0]] and have no result on it.  [process_5],
    for a number of quarter turns whose angle fits an [int], returns the
    empty grid as it is when the number is a multiple of 4 and has no
    result in every other case. *)
Theorem rejected_file_cannot_be_processed (bytes : list Z) (x_scale y_scale number : Z)
    (scaled lightened : Z → Z) :
  let hd := (read_header (open bytes)).1 in
  file_size hd ≠ expected_size hd →
  -2147483648 <= number * 90 <= INT_MAX →
  (image ← read_image bytes; write_image image) = None
  ∧ (image ← read_image bytes; process_2 scaled lightened image) = None
  ∧ (image ← read_image bytes; process_3 image) = None
  ∧ (image ← read_image bytes; process_4 image) = None
  ∧ (image ← read_image bytes; process_5 image number)
    = (if decide (number mod 4 = 0) then Some [] else None)
  ∧ (image ← read_image bytes; process_6 image x_scale y_scale) = None
  ∧ (image ← read_image bytes; process_7 image) = None
  ∧ (image ← read_image bytes; process_8 lightened image) = None
  ∧ (image ← read_image bytes; process_9 scaled image) = None
  ∧ (image ← read_image bytes; process_10 image) = None.
Proof.
  intros hd Hsize Hangle.
  assert (read_image bytes = Some []) as ->.
  { unfold read_image, read_image_from. subst hd.
    destruct (read_header (open bytes)) as [h s]. simpl in *. by rewrite decide_True. }
  split_and!; try reflexivity.
  cbn [mbind option_bind]. unfold process_5. cbv zeta.
  assert (number *i 90 = number * 90) as -> by (unwrap; done).
  unfold int_rem.
  assert (Z.rem (number * 90) 90 = 0) as Hrem by lia.
  rewrite decide_False by (rewrite Hrem; intros Hne; by apply Hne).
  destruct (decide (number mod 4 = 0)) as [H4|H4].
  - rewrite decide_True by lia. done.
  - rewrite decide_False by lia. repeat case_decide; reflexivity.
Qed.

Lemma rejected_file_cannot_be_processed_witness :
  (image ← read_image [66; 77; 0; 0]; write_image image) = None
  ∧ (image ← read_image [66; 77; 0; 0]; process_3 image) = None
  ∧ (image ← read_image [66; 77; 0; 0]; process_5 image (-6)) = None
  ∧ (image ← read_image [66; 77; 0; 0]; process_5 image 8) = Some [].
Proof.
  destruct (rejected_file_cannot_be_processed [66; 77; 0; 0] 1 1 (-6) (λ n, n) (λ n, n)
              ltac:(vm_compute; discriminate) ltac:(unfold INT_MAX; lia))
    as (Hw & _ & H3 & _ & H5 & _).
  destruct (rejected_file_cannot_be_processed [66; 77; 0; 0] 1 1 8 (λ n, n) (λ n, n)
              ltac:(vm_compute; discriminate) ltac:(unfold INT_MAX; lia))
    as (_ & _ & _ & _ & H8 & _).
  split_and!; [exact Hw|exact H3|exact H5|exact H8].
Defined.

(** X6.  Decoding a written file and encoding the result writes the same
    bytes again, whatever the channel values of the grid. *)
Theorem reencode_same_bytes (H W : nat) (image : Image) :
  grid H W image → (0 < H)%nat → int_sized H W → encoded_size H W <= INT_MAX →
  ∃ bytes decoded, write_image image = Some bytes
                   ∧ read_image bytes = Some decoded
                   ∧ write_image decoded = Some bytes.
Proof.
  intros Hg Hpos Hsz Hsize.
  exists (encoded H W image), (wrap_grid image). split_and!.
  - by apply write_image_eq.
  - rewrite <- encoded_wrap. apply read_image_encoded; try done; [by apply grid_wrap|].
    intros r c p Hp. unfold pixel_at, wrap_grid in Hp.
    rewrite list_lookup_fmap in Hp.
    destruct (image !! r) as [row|]; simpl in Hp; [|done].
    rewrite list_lookup_fmap in Hp.
    destruct (row !! c) as [p0|]; simpl in Hp; [|done].
    inversion Hp. unfold in_byte_range, wrap_channels. simpl.
    split_and!; apply to_uchar_range.
  - rewrite <- encoded_wrap. apply write_image_eq; [by apply grid_wrap|done..].
Qed.

Lemma reencode_same_bytes_witness :
  ∃ bytes decoded, write_image [[mkPixel 300 (-1) 256; mkPixel 0 255 7]] = Some bytes
                   ∧ read_image bytes = Some decoded
                   ∧ write_image decoded = Some bytes.
Proof.
  apply (reencode_same_bytes 1 2 [[mkPixel 300 (-1) 256; mkPixel 0 255 7]]).
  - split; [reflexivity|repeat constructor].
  - lia.
  - split; vm_compute; discriminate.
  - vm_compute. discriminate.
Defined.

(** * Edge cases of the parameters *)

(** X18.  A negative number of quarter turns whose angle fits an [int] gives
    the grid back when it is a multiple of 4 and three quarter turns in
    every other case. *)
Theorem rotate_n_negative (image : Image) (number : Z) :
  number < 0 → -2147483648 <= number * 90 →
  process_5 image number
  = if decide (number mod 4 = 0) then Some image else rotate_times 3 image.
Proof.
  intros Hn Hmin. unfold process_5. cbv zeta.
  assert (number *i 90 = number * 90) as -> by (unwrap; done).
  unfold int_rem.
  assert (Z.rem (number * 90) 90 = 0) as Hrem by lia.
  rewrite decide_False by (rewrite Hrem; intros Hne; by apply Hne).
  assert (Z.rem (number * 90) 360 <= 0) as Hneg by lia.
  destruct (decide (number mod 4 = 0)) as [H4|H4].
  - rewrite decide_True by lia. done.
  - rewrite decide_False by lia. rewrite decide_False by lia. rewrite decide_False by lia.
    simpl. destruct (process_4 image) as [once|]; simpl; [|done].
    destruct (process_4 once) as [twice|]; simpl; [|done].
    by rewrite bind_Some_r.
Qed.

Lemma rotate_n_negative_witness :
  process_5 example_grid (-3) = rotate_times 3 example_grid
  ∧ process_5 example_grid (-8) = Some example_grid.
Proof.
  split.
  - apply (rotate_n_negative example_grid (-3)); lia.
  - apply (rotate_n_negative example_grid (-8)); lia.
Defined.

(** X21.  Degenerate scales of [process_6], on a grid of [H > 0] rows of
    [W] pixels.  With [y_scale = 0] and an [x_scale] that is not
    negative, [W * x_scale] within [int], the result is the empty grid.
    With a negative [y_scale], [H * y_scale] within [int], or with a
    negative [x_scale] when [W > 0], [W * x_scale] within [int], there
    is no result whatever the other scale: a vector is constructed with
    a negative size. *)
Theorem enlarge_degenerate_scales (H W : nat) (image : Image) (x_scale y_scale : Z) :
  grid H W image → (0 < H)%nat → int_sized H W →
  (y_scale = 0 → 0 <= x_scale → Z.of_nat W * x_scale <= INT_MAX →
     process_6 image x_scale y_scale = Some [])
  ∧ (y_scale < 0 → -2147483648 <= Z.of_nat H * y_scale →
     process_6 image x_scale y_scale = None)
  ∧ (x_scale < 0 → (0 < W)%nat → -2147483648 <= Z.of_nat W * x_scale →
     process_6 image x_scale y_scale = None).
Proof.
  intros Hg Hpos Hsz.
  destruct (grid_sizes _ _ _ Hg Hpos Hsz) as (row0 & Hrow0 & HW & HH).
  unfold process_6. rewrite Hrow0. cbn [mbind option_bind]. rewrite HW, HH.
  split_and!.
  - intros -> Hx Hmax.
    assert (Z.of_nat W *i x_scale = Z.of_nat W * x_scale) as -> by (unwrap; nia).
    assert (Z.of_nat H *i 0 = 0) as -> by (unwrap; lia).
    unfold new_grid, vec_new. rewrite decide_True by nia. reflexivity.
  - intros Hy Hmin.
    assert (Z.of_nat H *i y_scale = Z.of_nat H * y_scale) as -> by (unwrap; nia).
    unfold new_grid, vec_new.
    destruct (decide (0 <= Z.of_nat W *i x_scale)); cbn [mbind option_bind]; [|done].
    rewrite decide_False by nia. done.
  - intros Hx HWpos Hmin.
    assert (Z.of_nat W *i x_scale = Z.of_nat W * x_scale) as -> by (unwrap; nia).
    unfold new_grid, vec_new. rewrite decide_False by nia. done.
Qed.

Lemma enlarge_degenerate_scales_witness :
  process_6 example_grid 2 0 = Some [] ∧ process_6 example_grid 2 (-1) = None
  ∧ process_6 example_grid (-1) 0 = None.
Proof.
  destruct (enlarge_degenerate_scales 2 3 example_grid 2 0
              ltac:(split; [reflexivity|repeat constructor]) ltac:(lia)
              ltac:(split; vm_compute; discriminate)) as (H0 & _ & _).
  destruct (enlarge_degenerate_scales 2 3 example_grid 2 (-1)
              ltac:(split; [reflexivity|repeat constructor]) ltac:(lia)
              ltac:(split; vm_compute; discriminate)) as (_ & Hneg & _).
  destruct (enlarge_degenerate_scales 2 3 example_grid (-1) 0
              ltac:(split; [reflexivity|repeat constructor]) ltac:(lia)
              ltac:(split; vm_compute; discriminate)) as (_ & _ & Hx).
  split_and!.
  - apply H0; [reflexivity|lia|vm_compute; discriminate].
  - apply Hneg; [lia|vm_compute; discriminate].
  - apply Hx; [lia|lia|vm_compute; discriminate].
Defined.

(** * The size test of the decoder *)





